(** * The in-memory microblogging engine: storage, routers and views

    A shallow embedding of the [twitter_app] package: the module-level
    stores of [storage.py], the request models of [models.py] and the
    handlers of [routers/*.py], followed by the properties of the
    follow graph, the like sets, the hashtag index and the read views. *)

From Stdlib Require Import String Ascii List ZArith Lia Orders OrderedTypeEx.
From stdpp Require Import base option list sorting gmap sets strings.
From Equations Require Import Equations.

Set Warnings "-clear-no-such-hyp".

Open Scope string_scope.
Open Scope list_scope.

(** ** Python builtins used by the handlers

    A Python [str] is a Rocq [string], one character per code point
    (code points below 256 are representable); [len] is [String.length].
    The character classes are the ASCII ones. *)

Module Py.

Definition is_upper (c : ascii) : bool :=
  let n := nat_of_ascii c in (65 <=? n)%nat && (n <=? 90)%nat.

Definition is_lower (c : ascii) : bool :=
  let n := nat_of_ascii c in (97 <=? n)%nat && (n <=? 122)%nat.

Definition is_digit (c : ascii) : bool :=
  let n := nat_of_ascii c in (48 <=? n)%nat && (n <=? 57)%nat.

(** The class [\w] of the regular expressions. *)
Definition is_word (c : ascii) : bool :=
  is_upper c || is_lower c || is_digit c || (nat_of_ascii c =? 95)%nat.

(** [str.isspace] on one character: tab, line feed, vertical tab, form
    feed, carriage return, the separators 28 to 31 and the space. *)
Definition is_space (c : ascii) : bool :=
  let n := nat_of_ascii c in
  ((9 <=? n)%nat && (n <=? 13)%nat) || ((28 <=? n)%nat && (n <=? 32)%nat).

Definition lower_char (c : ascii) : ascii :=
  if is_upper c then ascii_of_nat (nat_of_ascii c + 32) else c.

(** [s.lower()] *)
Fixpoint lower (s : string) : string :=
  match s with
  | EmptyString => EmptyString
  | String c s' => String (lower_char c) (lower s')
  end.

Fixpoint lstrip (s : string) : string :=
  match s with
  | EmptyString => EmptyString
  | String c s' => if is_space c then lstrip s' else s
  end.

Fixpoint rstrip (s : string) : string :=
  match s with
  | EmptyString => EmptyString
  | String c s' =>
      match rstrip s' with
      | EmptyString => if is_space c then EmptyString else String c EmptyString
      | r => String c r
      end
  end.

(** [s.strip()] *)
Definition strip (s : string) : string := rstrip (lstrip s).

(** [len(s)] *)
Definition len (s : string) : nat := String.length s.

(** Truthiness of a string: [if s] holds for the non-empty ones. *)
Definition truthy (s : string) : bool :=
  match s with EmptyString => false | _ => true end.

(** [re.compile(p + r"(\w+)").findall(s)] for a one-character prefix
    [p] that is not a word character: every maximal run of word
    characters that directly follows an occurrence of [p], from left to
    right. [cur] is the run being captured, if the scan is inside one. *)
Fixpoint findall_from (p : ascii) (cur : option string) (s : string)
  : list string :=
  match s with
  | EmptyString =>
      match cur with
      | Some (String c w) => [String c w]
      | _ => []
      end
  | String c s' =>
      match cur with
      | Some w =>
          if is_word c then findall_from p (Some (w +:+ String c EmptyString)) s'
          else
            let emitted := match w with EmptyString => [] | _ => [w] end in
            emitted ++ findall_from p (if Ascii.eqb c p then Some EmptyString else None) s'
      | None =>
          findall_from p (if Ascii.eqb c p then Some EmptyString else None) s'
      end
  end.

Definition findall (p : ascii) (s : string) : list string :=
  findall_from p None s.

(** [list(dict.fromkeys(l))]: the first occurrence of every element,
    in the order of the first occurrences. *)
Fixpoint fromkeys_acc (seen : list string) (l : list string) : list string :=
  match l with
  | [] => seen
  | x :: l' =>
      if decide (x ∈ seen) then fromkeys_acc seen l'
      else fromkeys_acc (seen ++ [x]) l'
  end.

Definition fromkeys (l : list string) : list string := fromkeys_acc [] l.

End Py.

(** ** Insertion-ordered dictionaries

    The handlers iterate over [storage.tweets.values()] and sort the
    outcome with a stable sort, so the order of the entries of that
    dictionary is part of the state: a [dict] keeps its keys in the order
    of their first insertion, assignment to a present key keeps its
    place, and [del] closes the gap. *)

Module odict.

Definition t (V : Type) : Type := list (string * V).

Definition empty {V} : t V := [].

(** [d.get(k)] *)
Fixpoint get {V} (k : string) (d : t V) : option V :=
  match d with
  | [] => None
  | (k', v) :: d' => if decide (k' = k) then Some v else get k d'
  end.


(** [d[k] = v] *)
Fixpoint set {V} (k : string) (v : V) (d : t V) : t V :=
  match d with
  | [] => [(k, v)]
  | (k', v') :: d' =>
      if decide (k' = k) then (k', v) :: d' else (k', v') :: set k v d'
  end.

(** [del d[k]] for a present key *)
Fixpoint del {V} (k : string) (d : t V) : t V :=
  match d with
  | [] => []
  | (k', v') :: d' =>
      if decide (k' = k) then del k d' else (k', v') :: del k d'
  end.

(** [list(d.keys())] and [list(d.values())] *)
Definition keys {V} (d : t V) : list string := d.*1.
Definition values {V} (d : t V) : list V := d.*2.

End odict.

(** ** Stored records ([storage.py])

    The stored user and tweet dictionaries have a fixed set of keys; they
    are records here, with the keys as field names. *)

Module user.
Record t := mk {
  id : string;
  username : string;
  display_name : string;
  bio : option string;
  created_at : string;
}.
End user.

Module tweet.
Record t := mk {
  id : string;
  type : string;                        (* 'tweet' | 'retweet' | 'quote' *)
  user_id : string;
  content : option string;
  created_at : string;
  hashtags : list string;
  mentions : list string;
  original_tweet_id : option string;
}.
End tweet.

Module storage.
Record t := mk {
  users : gmap string user.t;
  usernames : gmap string string;            (* lowercase username -> user id *)
  tweets : odict.t tweet.t;
  followers : gmap string (gset string);     (* who follows this user *)
  following : gmap string (gset string);     (* whom this user follows *)
  likes : gmap string (gset string);         (* tweet id -> user ids *)
  hashtag_index : gmap string (list string); (* lowercase tag -> tweet ids *)
}.

(** The stores after [reset_storage()], which is also how they start. *)
Definition reset_storage : t := mk ∅ ∅ odict.empty ∅ ∅ ∅ ∅.

Definition set_users f (s : t) : t :=
  mk (f (users s)) (usernames s) (tweets s) (followers s) (following s)
     (likes s) (hashtag_index s).
Definition set_usernames f (s : t) : t :=
  mk (users s) (f (usernames s)) (tweets s) (followers s) (following s)
     (likes s) (hashtag_index s).
Definition set_tweets f (s : t) : t :=
  mk (users s) (usernames s) (f (tweets s)) (followers s) (following s)
     (likes s) (hashtag_index s).
Definition set_followers f (s : t) : t :=
  mk (users s) (usernames s) (tweets s) (f (followers s)) (following s)
     (likes s) (hashtag_index s).
Definition set_following f (s : t) : t :=
  mk (users s) (usernames s) (tweets s) (followers s) (f (following s))
     (likes s) (hashtag_index s).
Definition set_likes f (s : t) : t :=
  mk (users s) (usernames s) (tweets s) (followers s) (following s)
     (f (likes s)) (hashtag_index s).
Definition set_hashtag_index f (s : t) : t :=
  mk (users s) (usernames s) (tweets s) (followers s) (following s)
     (likes s) (f (hashtag_index s)).
End storage.

(** [m.get(k, set())] and [m.get(k, [])] *)
Definition get_set (m : gmap string (gset string)) (k : string) : gset string :=
  default ∅ (m !! k).
Definition get_list (m : gmap string (list string)) (k : string) : list string :=
  default [] (m !! k).

(** [m.setdefault(k, d)] as a store update: a present key keeps its value. *)
Definition setdefault {V} (k : string) (d : V) (m : gmap string V) : gmap string V :=
  match m !! k with
  | Some _ => m
  | None => <[k := d]> m
  end.

(** ** Handler outcomes

    A handler returns a value, raises an [HTTPException] that FastAPI
    turns into a response, or dies of an unhandled [KeyError]. In each
    case the stores are left as they are at that point. *)

Record HTTPException := mkHTTPException {
  status_code : nat;
  detail : string;
}.

Inductive outcome (A : Type) : Type :=
| Return (a : A)
| Raise (e : HTTPException)
| KeyError (k : string).
Arguments Return {A} a.
Arguments Raise {A} e.
Arguments KeyError {A} k.

Definition M (A : Type) : Type := storage.t → outcome A * storage.t.

Definition raise {A} (e : HTTPException) : M A := λ s, (Raise e, s).
Definition key_error {A} (k : string) : M A := λ s, (KeyError k, s).
Definition read {A} (f : storage.t → A) : M A := λ s, (Return (f s), s).
Definition update (f : storage.t → storage.t) : M unit := λ s, (Return tt, f s).

#[export] Instance M_ret : MRet M := λ A a s, (Return a, s).
#[export] Instance M_bind : MBind M := λ A B k m s,
  match m s with
  | (Return a, s') => k a s'
  | (Raise e, s') => (Raise e, s')
  | (KeyError x, s') => (KeyError x, s')
  end.

Definition HTTP_404_user (user_id : string) : HTTPException :=
  mkHTTPException 404 ("User '" +:+ user_id +:+ "' not found").
Definition HTTP_404_tweet (tweet_id : string) : HTTPException :=
  mkHTTPException 404 ("Tweet '" +:+ tweet_id +:+ "' not found").

Definition raise_if (b : bool) (e : HTTPException) : M unit :=
  if b then raise e else mret tt.

(** [m[k]] on one of the set-valued stores: a missing key is a [KeyError]. *)
Definition subscript (m : storage.t → gmap string (gset string)) (k : string)
  : M (gset string) :=
  λ s, match m s !! k with
       | Some v => (Return v, s)
       | None => (KeyError k, s)
       end.

(** ** Request and response models ([models.py])

    A request body reaches its handler only after its field validators
    ran; [validate] is that step, [None] standing for the 422 response
    FastAPI sends without calling the handler. *)

Module UserCreate.
Record t := mk { username : string; display_name : string; bio : option string }.

Definition username_nonempty (v : string) : option string :=
  let v := Py.strip v in
  if negb (Py.truthy v) then None else Some v.

Definition display_name_nonempty (v : string) : option string :=
  let v := Py.strip v in
  if negb (Py.truthy v) then None else Some v.

Definition validate (raw : t) : option t :=
  match username_nonempty (username raw), display_name_nonempty (display_name raw) with
  | Some u, Some d => Some (mk u d (bio raw))
  | _, _ => None
  end.
End UserCreate.

Module UserUpdate.
Record t := mk { display_name : option string; bio : option string }.

(** The model declares no validator. *)
Definition validate (raw : t) : option t := Some raw.
End UserUpdate.

Module TweetCreate.
Record t := mk { user_id : string; content : string }.

Definition content_max_length (v : string) : option string :=
  if (280 <? Py.len v)%nat then None else Some v.

Definition validate (raw : t) : option t :=
  match content_max_length (content raw) with
  | Some c => Some (mk (user_id raw) c)
  | None => None
  end.
End TweetCreate.

Module RetweetCreate.
Record t := mk { user_id : string }.
Definition validate (raw : t) : option t := Some raw.
End RetweetCreate.

Module QuoteTweetCreate.
Record t := mk { user_id : string; content : string }.

Definition content_max_length (v : string) : option string :=
  if (280 <? Py.len v)%nat then None else Some v.

Definition validate (raw : t) : option t :=
  match content_max_length (content raw) with
  | Some c => Some (mk (user_id raw) c)
  | None => None
  end.
End QuoteTweetCreate.

Module FollowRequest.
Record t := mk { target_user_id : string }.
Definition validate (raw : t) : option t := Some raw.
End FollowRequest.

Module LikeRequest.
Record t := mk { user_id : string }.
Definition validate (raw : t) : option t := Some raw.
End LikeRequest.

Module UserOut.
Record t := mk {
  id : string;
  username : string;
  display_name : string;
  bio : option string;
  followers_count : nat;
  following_count : nat;
  tweet_count : nat;
  created_at : string;
}.
End UserOut.

Module TweetOut.
(** The response model refers to itself through [original_tweet]. *)
#[warnings="-register-all"]
Inductive t := mk {
  id : string;
  type : string;
  user_id : string;
  content : option string;
  created_at : string;
  hashtags : list string;
  mentions : list string;
  like_count : nat;
  retweet_count : nat;
  quote_count : nat;
  original_tweet_id : option string;
  original_tweet : option t;
  author : option UserOut.t;
}.
End TweetOut.

(** ** Shared helpers of the routers *)

(** [l.sort(key=lambda t: t["created_at"], reverse=True)]: the sort is
    stable, also when reversed, so tweets with equal timestamps keep the
    order they had in [l]. An element is inserted in front of the first
    element whose timestamp is not greater than its own. *)
Fixpoint insert_newest (x : tweet.t) (l : list tweet.t) : list tweet.t :=
  match l with
  | [] => [x]
  | y :: l' =>
      if String.ltb (tweet.created_at x) (tweet.created_at y)
      then y :: insert_newest x l'
      else x :: y :: l'
  end.

Definition sort_newest_first (l : list tweet.t) : list tweet.t :=
  foldr insert_newest [] l.

(** [sum(1 for x in l if p(x))] *)
Definition count_if {A} (p : A → bool) (l : list A) : nat :=
  length (List.filter p l).

(** [_get_user_or_404], defined alike in [users.py] and [follows.py]. A
    stored user dictionary has keys, so [not user] holds for [None] only. *)
Definition _get_user_or_404 (user_id : string) : M user.t :=
  λ s, match storage.users s !! user_id with
       | Some user => (Return user, s)
       | None => (Raise (HTTP_404_user user_id), s)
       end.

(** [_get_tweet_or_404], defined alike in [tweets.py] and [likes.py]. *)
Definition _get_tweet_or_404 (tweet_id : string) : M tweet.t :=
  λ s, match odict.get tweet_id (storage.tweets s) with
       | Some tweet => (Return tweet, s)
       | None => (Raise (HTTP_404_tweet tweet_id), s)
       end.

(** [_build_user_out], defined alike in [users.py], [follows.py] and
    [tweets.py]. *)
Definition _build_user_out (s : storage.t) (user : user.t) : UserOut.t :=
  let uid := user.id user in
  let tweet_count :=
    count_if (λ t, bool_decide (tweet.user_id t = uid))
             (odict.values (storage.tweets s)) in
  UserOut.mk uid (user.username user) (user.display_name user) (user.bio user)
             (size (get_set (storage.followers s) uid))
             (size (get_set (storage.following s) uid))
             tweet_count (user.created_at user).

(** ** [routers/tweets.py] *)

Module tweets.

Definition _extract_hashtags (content : string) : list string :=
  Py.fromkeys (Py.lower <$> Py.findall "#" content).

Definition _extract_mentions (content : string) : list string :=
  Py.fromkeys (Py.findall "@" content).

(** One turn of the loop of [_index_hashtags]. *)
Definition index_tag (tweet_id : string) (index : gmap string (list string))
  (tag : string) : gmap string (list string) :=
  <[tag := get_list index tag ++ [tweet_id]]> index.

Definition _index_hashtags (tweet_id : string) (hashtags : list string)
  (index : gmap string (list string)) : gmap string (list string) :=
  foldl (index_tag tweet_id) index hashtags.

(** [lst.remove(x)]: the first occurrence goes. *)
Fixpoint list_remove (x : string) (lst : list string) : list string :=
  match lst with
  | [] => []
  | y :: lst' => if decide (y = x) then lst' else y :: list_remove x lst'
  end.

(** One turn of the loop of [_deindex_hashtags]; for a tag that is not a
    key, [lst] is a fresh empty list and nothing is stored. *)
Definition deindex_tag (tweet_id : string) (index : gmap string (list string))
  (tag : string) : gmap string (list string) :=
  match index !! tag with
  | Some lst =>
      if decide (tweet_id ∈ lst) then <[tag := list_remove tweet_id lst]> index
      else index
  | None => index
  end.

Definition _deindex_hashtags (tweet_id : string) (hashtags : list string)
  (index : gmap string (list string)) : gmap string (list string) :=
  foldl (deindex_tag tweet_id) index hashtags.

Definition _count_retweets (s : storage.t) (tweet_id : string) : nat :=
  count_if (λ t, bool_decide (tweet.type t = "retweet")
                 && bool_decide (tweet.original_tweet_id t = Some tweet_id))
           (odict.values (storage.tweets s)).

Definition _count_quotes (s : storage.t) (tweet_id : string) : nat :=
  count_if (λ t, bool_decide (tweet.type t = "quote")
                 && bool_decide (tweet.original_tweet_id t = Some tweet_id))
           (odict.values (storage.tweets s)).

(** The [return TweetOut(...)] of [_build_tweet_out], for the value of
    [original_tweet_out] that was computed before it. *)
Definition tweet_out (s : storage.t) (tweet : tweet.t)
  (original_tweet_out : option TweetOut.t) : TweetOut.t :=
  let tid := tweet.id tweet in
  let author := _build_user_out s <$> (storage.users s !! tweet.user_id tweet) in
  TweetOut.mk tid (tweet.type tweet) (tweet.user_id tweet) (tweet.content tweet)
              (tweet.created_at tweet) (tweet.hashtags tweet) (tweet.mentions tweet)
              (size (get_set (storage.likes s) tid))
              (_count_retweets s tid) (_count_quotes s tid)
              (tweet.original_tweet_id tweet) original_tweet_out author.

(** [_build_tweet_out(tweet, depth)]. The test [orig_id and depth == 0]
    guards the only recursive call, which passes [depth=1]; the
    recursion is on the distance of [depth] from 2. *)
Equations _build_tweet_out (s : storage.t) (tweet : tweet.t) (depth : nat)
  : TweetOut.t by wf (2 - depth) lt :=
_build_tweet_out s tweet 0 :=
  tweet_out s tweet
    match tweet.original_tweet_id tweet with
    | Some orig_id =>
        if Py.truthy orig_id then
          match odict.get orig_id (storage.tweets s) with
          | Some orig => Some (_build_tweet_out s orig 1)
          | None => None
          end
        else None
    | None => None
    end;
_build_tweet_out s tweet (S _) := tweet_out s tweet None.

(** [POST /tweets]. [tid] is the value of [str(uuid4())] and [now] that
    of [datetime.utcnow().isoformat()] in this call. *)
Definition create_tweet (body : TweetCreate.t) (tid now : string) : M TweetOut.t :=
  let user_id := TweetCreate.user_id body in
  let content := TweetCreate.content body in
  known ← read (λ s, bool_decide (is_Some (storage.users s !! user_id)));
  raise_if (negb known) (HTTP_404_user user_id);;
  raise_if (280 <? Py.len content)%nat
    (mkHTTPException 400 "Content must not exceed 280 characters");;
  let hashtags := _extract_hashtags content in
  let mentions := _extract_mentions content in
  let tweet :=
    tweet.mk tid "tweet" user_id (Some content) now hashtags mentions None in
  update (storage.set_tweets (odict.set tid tweet));;
  update (storage.set_likes <[tid := ∅]>);;
  update (storage.set_hashtag_index (_index_hashtags tid hashtags));;
  read (λ s, _build_tweet_out s tweet 0).

(** [GET /tweets/{tweet_id}] *)
Definition get_tweet (tweet_id : string) : M TweetOut.t :=
  tweet ← _get_tweet_or_404 tweet_id;
  read (λ s, _build_tweet_out s tweet 0).

(** [DELETE /tweets/{tweet_id}] *)
Definition delete_tweet (tweet_id : string) : M unit :=
  tweet ← _get_tweet_or_404 tweet_id;
  update (storage.set_hashtag_index
            (_deindex_hashtags tweet_id (tweet.hashtags tweet)));;
  update (storage.set_likes (delete tweet_id));;
  update (storage.set_tweets (odict.del tweet_id)).

End tweets.

(** ** [routers/users.py] *)

Module users.

(** [POST /users], with [uid] for [str(uuid4())] and [now] for the
    timestamp of the call. *)
Definition create_user (body : UserCreate.t) (uid now : string) : M UserOut.t :=
  let normalized := Py.lower (UserCreate.username body) in
  taken ← read (λ s, bool_decide (is_Some (storage.usernames s !! normalized)));
  raise_if taken
    (mkHTTPException 409
       ("Username '" +:+ UserCreate.username body +:+ "' is already taken"));;
  let user :=
    user.mk uid (UserCreate.username body) (UserCreate.display_name body)
            (UserCreate.bio body) now in
  update (storage.set_users <[uid := user]>);;
  update (storage.set_usernames <[normalized := uid]>);;
  update (storage.set_followers <[uid := ∅]>);;
  update (storage.set_following <[uid := ∅]>);;
  read (λ s, _build_user_out s user).

(** [GET /users/{user_id}] *)
Definition get_user (user_id : string) : M UserOut.t :=
  user ← _get_user_or_404 user_id;
  read (λ s, _build_user_out s user).

(** [PUT /users/{user_id}]. [user] is the dictionary that the store
    holds under [user_id]; the assignments change it in place. *)
Definition update_user (user_id : string) (body : UserUpdate.t) : M UserOut.t :=
  user ← _get_user_or_404 user_id;
  let user :=
    match UserUpdate.display_name body with
    | Some d => user.mk (user.id user) (user.username user) d (user.bio user)
                        (user.created_at user)
    | None => user
    end in
  let user :=
    match UserUpdate.bio body with
    | Some b => user.mk (user.id user) (user.username user) (user.display_name user)
                        (Some b) (user.created_at user)
    | None => user
    end in
  update (storage.set_users <[user_id := user]>);;
  read (λ s, _build_user_out s user).

(** [GET /users/{user_id}/tweets] *)
Definition get_user_tweets (user_id : string) : M (list TweetOut.t) :=
  _get_user_or_404 user_id;;
  read (λ s,
    let user_tweets :=
      List.filter (λ t, bool_decide (tweet.user_id t = user_id))
                  (odict.values (storage.tweets s)) in
    (λ t, tweets._build_tweet_out s t 0) <$> sort_newest_first user_tweets).

End users.

(** ** [routers/retweets.py] *)

Module retweets.

(** [POST /tweets/{tweet_id}/retweet] *)
Definition create_retweet (tweet_id : string) (body : RetweetCreate.t)
  (tid now : string) : M TweetOut.t :=
  let user_id := RetweetCreate.user_id body in
  original ← read (λ s, odict.get tweet_id (storage.tweets s));
  raise_if (bool_decide (original = None)) (HTTP_404_tweet tweet_id);;
  known ← read (λ s, bool_decide (is_Some (storage.users s !! user_id)));
  raise_if (negb known) (HTTP_404_user user_id);;
  let retweet := tweet.mk tid "retweet" user_id None now [] [] (Some tweet_id) in
  update (storage.set_tweets (odict.set tid retweet));;
  update (storage.set_likes <[tid := ∅]>);;
  read (λ s, tweets._build_tweet_out s retweet 0).

(** [POST /tweets/{tweet_id}/quote] *)
Definition create_quote_tweet (tweet_id : string) (body : QuoteTweetCreate.t)
  (tid now : string) : M TweetOut.t :=
  let user_id := QuoteTweetCreate.user_id body in
  let content := QuoteTweetCreate.content body in
  original ← read (λ s, odict.get tweet_id (storage.tweets s));
  raise_if (bool_decide (original = None)) (HTTP_404_tweet tweet_id);;
  known ← read (λ s, bool_decide (is_Some (storage.users s !! user_id)));
  raise_if (negb known) (HTTP_404_user user_id);;
  raise_if (280 <? Py.len content)%nat
    (mkHTTPException 400 "Content must not exceed 280 characters");;
  let hashtags := tweets._extract_hashtags content in
  let mentions := tweets._extract_mentions content in
  let quote_tweet :=
    tweet.mk tid "quote" user_id (Some content) now hashtags mentions
             (Some tweet_id) in
  update (storage.set_tweets (odict.set tid quote_tweet));;
  update (storage.set_likes <[tid := ∅]>);;
  update (storage.set_hashtag_index (tweets._index_hashtags tid hashtags));;
  read (λ s, tweets._build_tweet_out s quote_tweet 0).

End retweets.

(** ** [routers/follows.py] *)

Module follows.

(** [POST /users/{user_id}/follow] *)
Definition follow_user (user_id : string) (body : FollowRequest.t) : M string :=
  _get_user_or_404 user_id;;
  let target_id := FollowRequest.target_user_id body in
  _get_user_or_404 target_id;;
  raise_if (bool_decide (user_id = target_id))
    (mkHTTPException 400 "Cannot follow yourself");;
  update (storage.set_following (setdefault user_id ∅));;
  update (storage.set_followers (setdefault target_id ∅));;
  out ← subscript storage.following user_id;
  raise_if (bool_decide (target_id ∈ out))
    (mkHTTPException 409 ("Already following user '" +:+ target_id +:+ "'"));;
  out ← subscript storage.following user_id;
  update (storage.set_following <[user_id := out ∪ {[target_id]}]>);;
  inc ← subscript storage.followers target_id;
  update (storage.set_followers <[target_id := inc ∪ {[user_id]}]>);;
  mret ("Now following '" +:+ target_id +:+ "'").

(** [DELETE /users/{user_id}/follow] *)
Definition unfollow_user (user_id target_user_id : string) : M string :=
  _get_user_or_404 user_id;;
  _get_user_or_404 target_user_id;;
  out ← read (λ s, get_set (storage.following s) user_id);
  raise_if (negb (bool_decide (target_user_id ∈ out)))
    (mkHTTPException 404 ("Not following user '" +:+ target_user_id +:+ "'"));;
  out ← subscript storage.following user_id;
  update (storage.set_following <[user_id := out ∖ {[target_user_id]}]>);;
  inc ← subscript storage.followers target_user_id;
  update (storage.set_followers <[target_user_id := inc ∖ {[user_id]}]>);;
  mret ("Unfollowed '" +:+ target_user_id +:+ "'").

(** The loop shared by [get_followers] and [get_following]: the view of
    every listed id that is still a registered user. A Python [set] is
    iterated in an order of its own; [elements] stands for that order. *)
Definition user_views (s : storage.t) (ids : gset string) : list UserOut.t :=
  omap (λ fid, _build_user_out s <$> (storage.users s !! fid)) (elements ids).

(** [GET /users/{user_id}/followers] *)
Definition get_followers (user_id : string) : M (list UserOut.t) :=
  _get_user_or_404 user_id;;
  read (λ s, user_views s (get_set (storage.followers s) user_id)).

(** [GET /users/{user_id}/following] *)
Definition get_following (user_id : string) : M (list UserOut.t) :=
  _get_user_or_404 user_id;;
  read (λ s, user_views s (get_set (storage.following s) user_id)).

End follows.

(** ** [routers/likes.py] *)

Module likes.

(** [POST /tweets/{tweet_id}/like]. [likers] is the set held by the
    store, so [likers.add] changes the store. *)
Definition like_tweet (tweet_id : string) (body : LikeRequest.t)
  : M (string * nat) :=
  let user_id := LikeRequest.user_id body in
  _get_tweet_or_404 tweet_id;;
  update (storage.set_likes (setdefault tweet_id ∅));;
  likers ← subscript storage.likes tweet_id;
  raise_if (bool_decide (user_id ∈ likers))
    (mkHTTPException 409
       ("User '" +:+ user_id +:+ "' has already liked tweet '" +:+ tweet_id +:+ "'"));;
  let likers := likers ∪ {[user_id]} in
  update (storage.set_likes <[tweet_id := likers]>);;
  mret ("Tweet liked", size likers).

(** [DELETE /tweets/{tweet_id}/like]. Without an entry for the tweet,
    [likers] is a fresh empty set and the membership test fails. *)
Definition unlike_tweet (tweet_id user_id : string) : M (string * nat) :=
  _get_tweet_or_404 tweet_id;;
  likers ← read (λ s, get_set (storage.likes s) tweet_id);
  raise_if (negb (bool_decide (user_id ∈ likers)))
    (mkHTTPException 404
       ("User '" +:+ user_id +:+ "' has not liked tweet '" +:+ tweet_id +:+ "'"));;
  let likers := likers ∖ {[user_id]} in
  update (storage.set_likes <[tweet_id := likers]>);;
  mret ("Tweet unliked", size likers).

End likes.

(** ** [routers/timeline.py], [routers/hashtags.py], [routers/mentions.py] *)

Module timeline.

(** The tweets of the feed, sorted, before the views are built. *)
Definition feed (s : storage.t) (user_id : string) : list tweet.t :=
  let followed_ids := get_set (storage.following s) user_id in
  if decide (followed_ids = ∅) then []
  else
    sort_newest_first
      (List.filter (λ t, bool_decide (tweet.user_id t ∈ followed_ids))
                   (odict.values (storage.tweets s))).

(** [GET /users/{user_id}/timeline] *)
Definition get_timeline (user_id : string) : M (list TweetOut.t) :=
  known ← read (λ s, bool_decide (is_Some (storage.users s !! user_id)));
  raise_if (negb known) (HTTP_404_user user_id);;
  read (λ s, (λ t, tweets._build_tweet_out s t 0) <$> feed s user_id).

End timeline.

Module hashtags.

(** The live tweets of the index entry, in the order of the entry. *)
Definition live (s : storage.t) (tweet_ids : list string) : list tweet.t :=
  omap (λ tid, odict.get tid (storage.tweets s)) tweet_ids.

Definition tagged (s : storage.t) (tag : string) : list tweet.t :=
  let tag_lower := Py.lower tag in
  let tweet_ids := get_list (storage.hashtag_index s) tag_lower in
  sort_newest_first (live s tweet_ids).

(** [GET /hashtags/{tag}/tweets] *)
Definition get_tweets_by_hashtag (tag : string) : M (list TweetOut.t) :=
  read (λ s, (λ t, tweets._build_tweet_out s t 0) <$> tagged s tag).

End hashtags.

Module mentions.

Definition mentioned (s : storage.t) (user : user.t) : list tweet.t :=
  let username_lower := Py.lower (user.username user) in
  sort_newest_first
    (List.filter
       (λ t, existsb (λ m, bool_decide (Py.lower m = username_lower))
                     (tweet.mentions t))
       (odict.values (storage.tweets s))).

(** [GET /users/{user_id}/mentions] *)
Definition get_mentions (user_id : string) : M (list TweetOut.t) :=
  user ← _get_user_or_404 user_id;
  read (λ s, (λ t, tweets._build_tweet_out s t 0) <$> mentioned s user).

End mentions.

(** ** [routers/trending.py] *)

Module TrendingItem.
Record t := mk { hashtag : string; count : nat }.
End TrendingItem.

Module trending.







End trending.

(** ** The application ([main.py])

    The routes that change the stores. A request carries the raw body;
    [handle] validates it as FastAPI does before it calls the handler,
    and hands over the identifier and the timestamp the handler would
    draw from [uuid4()] and [utcnow()]. *)

Inductive request :=
| POST_users (raw : UserCreate.t)
| PUT_users (user_id : string) (raw : UserUpdate.t)
| POST_tweets (raw : TweetCreate.t)
| DELETE_tweets (tweet_id : string)
| POST_tweets_retweet (tweet_id : string) (raw : RetweetCreate.t)
| POST_tweets_quote (tweet_id : string) (raw : QuoteTweetCreate.t)
| POST_users_follow (user_id : string) (raw : FollowRequest.t)
| DELETE_users_follow (user_id target_user_id : string)
| POST_tweets_like (tweet_id : string) (raw : LikeRequest.t)
| DELETE_tweets_like (tweet_id user_id : string).

Inductive response :=
| JSON_user (u : UserOut.t)
| JSON_tweet (t : TweetOut.t)
| JSON_detail (d : string)
| JSON_like (d : string) (like_count : nat)
| No_content.

#[export] Instance M_fmap : FMap M := λ A B f m, a ← m; mret (f a).

(** The 422 response to a body that fails validation. *)
Definition validated {A B} (v : option A) (k : A → M B) : M B :=
  match v with
  | Some body => k body
  | None => raise (mkHTTPException 422 "Unprocessable Entity")
  end.

Definition handle (uuid now : string) (r : request) : M response :=
  match r with
  | POST_users raw =>
      validated (UserCreate.validate raw)
        (λ body, JSON_user <$> users.create_user body uuid now)
  | PUT_users user_id raw =>
      validated (UserUpdate.validate raw)
        (λ body, JSON_user <$> users.update_user user_id body)
  | POST_tweets raw =>
      validated (TweetCreate.validate raw)
        (λ body, JSON_tweet <$> tweets.create_tweet body uuid now)
  | DELETE_tweets tweet_id =>
      (λ _, No_content) <$> tweets.delete_tweet tweet_id
  | POST_tweets_retweet tweet_id raw =>
      validated (RetweetCreate.validate raw)
        (λ body, JSON_tweet <$> retweets.create_retweet tweet_id body uuid now)
  | POST_tweets_quote tweet_id raw =>
      validated (QuoteTweetCreate.validate raw)
        (λ body, JSON_tweet <$> retweets.create_quote_tweet tweet_id body uuid now)
  | POST_users_follow user_id raw =>
      validated (FollowRequest.validate raw)
        (λ body, JSON_detail <$> follows.follow_user user_id body)
  | DELETE_users_follow user_id target_user_id =>
      JSON_detail <$> follows.unfollow_user user_id target_user_id
  | POST_tweets_like tweet_id raw =>
      validated (LikeRequest.validate raw)
        (λ body, (λ '(d, n), JSON_like d n) <$> likes.like_tweet tweet_id body)
  | DELETE_tweets_like tweet_id user_id =>
      (λ '(d, n), JSON_like d n) <$> likes.unlike_tweet tweet_id user_id
  end.

(** An identifier from [uuid4()] is one that no stored user or tweet has. *)
Definition fresh (s : storage.t) (uuid : string) : Prop :=
  storage.users s !! uuid = None ∧ odict.get uuid (storage.tweets s) = None.

(** The states of the stores: the empty stores, and what any request
    leaves behind, whether it was answered with a result or an error. *)
Inductive reachable : storage.t → Prop :=
| reachable_reset : reachable storage.reset_storage
| reachable_handle s uuid now r :
    reachable s → fresh s uuid → reachable (handle uuid now r s).2.

(** ** Running the handlers on concrete stores *)

Module Examples.

Definition run (uuid now : string) (r : request) (s : storage.t) : storage.t :=
  (handle uuid now r s).2.

Definition s1 := run "u1" "2024-01-01T00:00:00"
                     (POST_users (UserCreate.mk " alice " "Alice" None))
                     storage.reset_storage.
Definition s2 := run "u2" "2024-01-01T00:00:01"
                     (POST_users (UserCreate.mk "Bob" "Bob" (Some "hi"))) s1.
Definition s3 := run "" "" (POST_users_follow "u1" (FollowRequest.mk "u2")) s2.
Definition s4 := run "t1" "2024-01-01T00:00:02"
                     (POST_tweets (TweetCreate.mk "u2" "hello #X and #x @Alice")) s3.
Definition s5 := run "t2" "2024-01-01T00:00:02"
                     (POST_tweets_retweet "t1" (RetweetCreate.mk "u2")) s4.
Definition s6 := run "t3" "2024-01-01T00:00:02"
                     (POST_tweets_quote "t2" (QuoteTweetCreate.mk "u2" "so #x")) s5.

End Examples.

(** ** Outcomes of the handlers

    Names for the errors the handlers raise, for the records they store
    and for the stores they leave, used to state what a call does. *)

(** A view is capped when the original it embeds, if any, embeds nothing. *)
Definition nesting_capped (v : TweetOut.t) : Prop :=
  match TweetOut.original_tweet v with
  | Some o => TweetOut.original_tweet o = None
  | None => True
  end.

(** A view is honest about a missing original when it embeds nothing for
    an [original_tweet_id] that the store [s] has no tweet for. *)
Definition dangling_omitted (s : storage.t) (v : TweetOut.t) : Prop :=
  match TweetOut.original_tweet_id v with
  | Some orig_id =>
      odict.get orig_id (storage.tweets s) = None → TweetOut.original_tweet v = None
  | None => True
  end.

(** The views that the read routes of the application return on [s]. *)
Inductive returned_view (s : storage.t) : TweetOut.t → Prop :=
| returned_get_tweet tweet_id v s' :
    tweets.get_tweet tweet_id s = (Return v, s') → returned_view s v
| returned_get_user_tweets user_id l v s' :
    users.get_user_tweets user_id s = (Return l, s') → v ∈ l → returned_view s v
| returned_get_timeline user_id l v s' :
    timeline.get_timeline user_id s = (Return l, s') → v ∈ l → returned_view s v
| returned_get_tweets_by_hashtag tag l v s' :
    hashtags.get_tweets_by_hashtag tag s = (Return l, s') → v ∈ l → returned_view s v
| returned_get_mentions user_id l v s' :
    mentions.get_mentions user_id s = (Return l, s') → v ∈ l → returned_view s v.

Definition HTTP_400_content : HTTPException :=
  mkHTTPException 400 "Content must not exceed 280 characters".

(** The tweet that [create_tweet] stores, and the store it leaves. *)
Definition new_tweet (body : TweetCreate.t) tid now : tweet.t :=
  let content := TweetCreate.content body in
  tweet.mk tid "tweet" (TweetCreate.user_id body) (Some content) now
           (tweets._extract_hashtags content) (tweets._extract_mentions content)
           None.

Definition new_quote tweet_id (body : QuoteTweetCreate.t) tid now : tweet.t :=
  let content := QuoteTweetCreate.content body in
  tweet.mk tid "quote" (QuoteTweetCreate.user_id body) (Some content) now
           (tweets._extract_hashtags content) (tweets._extract_mentions content)
           (Some tweet_id).

Definition new_retweet tweet_id (body : RetweetCreate.t) tid now : tweet.t :=
  tweet.mk tid "retweet" (RetweetCreate.user_id body) None now [] []
           (Some tweet_id).

Definition stored (t : tweet.t) s : storage.t :=
  storage.set_hashtag_index
    (tweets._index_hashtags (tweet.id t) (tweet.hashtags t))
    (storage.set_likes <[tweet.id t := ∅]>
       (storage.set_tweets (odict.set (tweet.id t) t) s)).

(** [c * n] for a one-character string, as the tests build their bodies. *)
Fixpoint times (c : ascii) (n : nat) : string :=
  match n with
  | O => EmptyString
  | S n' => String c (times c n')
  end.

Definition new_user (body : UserCreate.t) (uid now : string) : user.t :=
  user.mk uid (UserCreate.username body) (UserCreate.display_name body)
          (UserCreate.bio body) now.

Definition registered (body : UserCreate.t) (uid now : string) s : storage.t :=
  storage.set_following <[uid := ∅]>
    (storage.set_followers <[uid := ∅]>
       (storage.set_usernames <[Py.lower (UserCreate.username body) := uid]>
          (storage.set_users <[uid := new_user body uid now]> s))).

Definition HTTP_409_username (body : UserCreate.t) : HTTPException :=
  mkHTTPException 409
    ("Username '" +:+ UserCreate.username body +:+ "' is already taken").

Definition updated (body : UserUpdate.t) (user : user.t) : user.t :=
  let user :=
    match UserUpdate.display_name body with
    | Some d => user.mk (user.id user) (user.username user) d (user.bio user)
                        (user.created_at user)
    | None => user
    end in
  match UserUpdate.bio body with
  | Some b => user.mk (user.id user) (user.username user) (user.display_name user)
                      (Some b) (user.created_at user)
  | None => user
  end.

Definition deleted tweet_id (t : tweet.t) s : storage.t :=
  storage.set_tweets (odict.del tweet_id)
    (storage.set_likes (delete tweet_id)
       (storage.set_hashtag_index
          (tweets._deindex_hashtags tweet_id (tweet.hashtags t)) s)).

Definition HTTP_400_self : HTTPException :=
  mkHTTPException 400 "Cannot follow yourself".

Definition HTTP_409_following target_id : HTTPException :=
  mkHTTPException 409 ("Already following user '" +:+ target_id +:+ "'").

Definition HTTP_404_following target_id : HTTPException :=
  mkHTTPException 404 ("Not following user '" +:+ target_id +:+ "'").

(** The stores after the two defensive [setdefault] calls of
    [follow_user], and after the two [add] calls. *)
Definition defaulted user_id target_id s : storage.t :=
  storage.set_followers (setdefault target_id ∅)
    (storage.set_following (setdefault user_id ∅) s).

Definition followed user_id target_id s : storage.t :=
  storage.set_followers
    <[target_id := get_set (storage.followers s) target_id ∪ {[user_id]}]>
    (storage.set_following
       <[user_id := get_set (storage.following s) user_id ∪ {[target_id]}]> s).

Definition half_unfollowed user_id target_id s : storage.t :=
  storage.set_following
    <[user_id := get_set (storage.following s) user_id ∖ {[target_id]}]> s.

Definition unfollowed user_id target_id s : storage.t :=
  storage.set_followers
    <[target_id := get_set (storage.followers s) target_id ∖ {[user_id]}]>
    (half_unfollowed user_id target_id s).

Definition HTTP_404_like tweet_id user_id : HTTPException :=
  mkHTTPException 404
    ("User '" +:+ user_id +:+ "' has not liked tweet '" +:+ tweet_id +:+ "'").

(** ** Steps of the stores

    [effect uuid now s s'] lists the ways in which one request, served
    with the fresh identifier [uuid] at time [now], can turn the stores
    [s] into [s']; [handle_effect] below shows that the list is complete. *)

Inductive effect (uuid now : string) (s : storage.t) : storage.t → Prop :=
| effect_none : effect uuid now s s
| effect_registered raw body :
    UserCreate.validate raw = Some body →
    storage.usernames s !! Py.lower (UserCreate.username body) = None →
    effect uuid now s (registered body uuid now s)
| effect_updated user_id body user :
    storage.users s !! user_id = Some user →
    effect uuid now s (storage.set_users <[user_id := updated body user]> s)
| effect_stored t :
    tweet.id t = uuid →
    NoDup (tweet.hashtags t) →
    effect uuid now s (stored t s)
| effect_deleted tweet_id t :
    odict.get tweet_id (storage.tweets s) = Some t →
    effect uuid now s (deleted tweet_id t s)
| effect_defaulted user_id target_id :
    is_Some (storage.users s !! user_id) →
    is_Some (storage.users s !! target_id) →
    target_id ∈ get_set (storage.following s) user_id →
    effect uuid now s (defaulted user_id target_id s)
| effect_followed user_id target_id :
    is_Some (storage.users s !! user_id) →
    is_Some (storage.users s !! target_id) →
    user_id ≠ target_id →
    target_id ∉ get_set (storage.following s) user_id →
    effect uuid now s (followed user_id target_id s)
| effect_unfollowed user_id target_id :
    target_id ∈ get_set (storage.following s) user_id →
    is_Some (storage.followers s !! target_id) →
    effect uuid now s (unfollowed user_id target_id s)
| effect_half_unfollowed user_id target_id :
    target_id ∈ get_set (storage.following s) user_id →
    storage.followers s !! target_id = None →
    effect uuid now s (half_unfollowed user_id target_id s)
| effect_likes tweet_id likers :
    is_Some (odict.get tweet_id (storage.tweets s)) →
    effect uuid now s (storage.set_likes <[tweet_id := likers]> s).

(** ** Invariants of the stores *)

(** The two adjacency views of the follow graph agree. *)
Definition follow_symmetric (s : storage.t) : Prop :=
  ∀ a b : string,
    b ∈ get_set (storage.following s) a ↔ a ∈ get_set (storage.followers s) b.

(** Every registered user has an entry in both views, as [create_user]
    sets them up. *)
Definition users_have_sets (s : storage.t) : Prop :=
  ∀ u : string,
    is_Some (storage.users s !! u) →
    is_Some (storage.followers s !! u) ∧ is_Some (storage.following s !! u).

(** Edges run between registered users only. *)
Definition edges_between_users (s : storage.t) : Prop :=
  ∀ a b : string,
    b ∈ get_set (storage.following s) a →
    is_Some (storage.users s !! a) ∧ is_Some (storage.users s !! b).

Record follow_inv (s : storage.t) : Prop := mk_follow_inv {
  follow_inv_symmetric : follow_symmetric s;
  follow_inv_sets : users_have_sets s;
  follow_inv_users : edges_between_users s;
}.

(** The keys of the tweet store are distinct, and each tweet is filed
    under its own id. *)
Definition tweets_keyed (s : storage.t) : Prop :=
  NoDup (odict.keys (storage.tweets s))
  ∧ ∀ k t, (k, t) ∈ storage.tweets s → tweet.id t = k.

(** No entry of the hashtag index lists an id twice, and every entry
    lists its ids in the order in which the tweets were created, which
    is the order of the keys of the tweet store. *)
Definition index_ordered (s : storage.t) : Prop :=
  ∀ tag l,
    storage.hashtag_index s !! tag = Some l →
    NoDup l ∧ l `sublist_of` odict.keys (storage.tweets s).

(** The ids listed under a tag belong to stored tweets that carry it. *)
Definition index_live (s : storage.t) : Prop :=
  ∀ tag l tid,
    storage.hashtag_index s !! tag = Some l → tid ∈ l →
    ∃ t, odict.get tid (storage.tweets s) = Some t ∧ tag ∈ tweet.hashtags t.

Record tweet_inv (s : storage.t) : Prop := mk_tweet_inv {
  tweet_inv_keyed : tweets_keyed s;
  tweet_inv_ordered : index_ordered s;
  tweet_inv_live : index_live s;
}.

(** Every stored user has a display name. *)
Definition display_names_nonempty (s : storage.t) : Prop :=
  ∀ uid user, storage.users s !! uid = Some user → user.display_name user ≠ "".

(** No user follows themself. *)
Definition no_self_edges (s : storage.t) : Prop :=
  ∀ a : string, a ∉ get_set (storage.following s) a.

(** Every user is filed under their own id, and the username index maps
    the lowercased username of every user to that id. *)
Definition users_indexed (s : storage.t) : Prop :=
  ∀ uid user,
    storage.users s !! uid = Some user →
    user.id user = uid
    ∧ storage.usernames s !! Py.lower (user.username user) = Some uid.




(** The answer of FastAPI to a body that its model rejects. *)
Definition HTTP_422 : HTTPException := mkHTTPException 422 "Unprocessable Entity".


(** Every stored tweet is listed under each of its hashtags. *)
Definition index_complete (s : storage.t) : Prop :=
  ∀ k t tag,
    odict.get k (storage.tweets s) = Some t →
    tag ∈ tweet.hashtags t →
    k ∈ get_list (storage.hashtag_index s) tag.








(** * Properties *)

(** ** The builtins on examples *)

Example lower_ex : Py.lower "Hello #RoCQ_9" = "hello #rocq_9".
Proof. reflexivity. Qed.

Example strip_ex : Py.strip "  Al ice   " = "Al ice".
Proof. reflexivity. Qed.

Example strip_blank_ex : Py.strip "    " = "".
Proof. reflexivity. Qed.

Example findall_ex :
  Py.findall "#" "a ##x1 #y_2#z, # #X1!" = ["x1"; "y_2"; "z"; "X1"].
Proof. reflexivity. Qed.

Example fromkeys_ex : Py.fromkeys ["b"; "a"; "b"; "c"; "a"] = ["b"; "a"; "c"].
Proof. reflexivity. Qed.


(** ** Running a handler symbolically *)

Ltac unfold_M :=
  repeat (progress unfold mbind, M_bind, mret, M_ret, fmap, M_fmap, validated,
            read, update, raise, raise_if, key_error, subscript,
            _get_user_or_404, _get_tweet_or_404 in * ).

Lemma lookup_setdefault {V} (k k' : string) (d : V) (m : gmap string V) :
  setdefault k d m !! k' =
  if decide (k = k') then Some (default d (m !! k)) else m !! k'.
Proof.
  unfold setdefault. destruct (m !! k) as [v|] eqn:E.
  - case_decide; subst; by rewrite ?E.
  - case_decide; subst; [by rewrite lookup_insert_eq | by rewrite lookup_insert_ne].
Qed.

Lemma setdefault_present {V} (k : string) (d : V) (m : gmap string V) :
  is_Some (m !! k) → setdefault k d m = m.
Proof. intros [v E]. unfold setdefault. by rewrite E. Qed.

Lemma get_set_setdefault (k k' : string) (m : gmap string (gset string)) :
  get_set (setdefault k ∅ m) k' = get_set m k'.
Proof.
  unfold get_set. rewrite lookup_setdefault.
  case_decide; subst; [by destruct (m !! k') | done].
Qed.

(** ** Likes *)

Section likes_facts.
Implicit Types (s : storage.t) (tweet_id user_id : string).

Lemma like_tweet_missing s tweet_id body :
  odict.get tweet_id (storage.tweets s) = None →
  likes.like_tweet tweet_id body s = (Raise (HTTP_404_tweet tweet_id), s).
Proof. intros E. unfold likes.like_tweet. unfold_M. by rewrite E. Qed.

Lemma like_tweet_present s tweet_id body t :
  odict.get tweet_id (storage.tweets s) = Some t →
  let user_id := LikeRequest.user_id body in
  let old := get_set (storage.likes s) tweet_id in
  likes.like_tweet tweet_id body s =
  if decide (user_id ∈ old)
  then (Raise (mkHTTPException 409
                 ("User '" +:+ user_id +:+ "' has already liked tweet '"
                           +:+ tweet_id +:+ "'")), s)
  else (Return ("Tweet liked", size (old ∪ {[user_id]})),
        storage.set_likes <[tweet_id := old ∪ {[user_id]}]> s).
Proof.
  intros E. unfold likes.like_tweet. unfold_M. rewrite E. simpl.
  rewrite lookup_setdefault. rewrite decide_True by done.
  unfold get_set, storage.set_likes.
  destruct s as [us un tw fr fg lk hi]. simpl in *.
  destruct (lk !! tweet_id) as [old|] eqn:El; simpl.
  - rewrite (setdefault_present _ _ _ (mk_is_Some _ _ El)).
    destruct (decide (LikeRequest.user_id body ∈ old)).
    + by rewrite bool_decide_eq_true_2.
    + rewrite bool_decide_eq_false_2 by done. done.
  - rewrite decide_False by set_solver.
    rewrite bool_decide_eq_false_2 by set_solver. simpl.
    unfold setdefault. rewrite El.
    by rewrite insert_insert_eq.
Qed.

End likes_facts.

(** C9. [like_tweet] never looks the liking user up. On a store that has
    the tweet and where [user_id], registered or not, is not among its
    likers, the call returns the old count plus one and leaves a store
    that differs only in that [user_id] joined the likers of the tweet.
    In every store the call either returns or raises one of two errors:
    404 for a missing tweet, 409 for a user who already likes it. *)
Theorem like_tweet_ignores_users (s : storage.t) (tweet_id user_id : string) :
  (is_Some (odict.get tweet_id (storage.tweets s)) →
   user_id ∉ get_set (storage.likes s) tweet_id →
   likes.like_tweet tweet_id (LikeRequest.mk user_id) s =
   (Return ("Tweet liked", S (size (get_set (storage.likes s) tweet_id))),
    storage.set_likes
      <[tweet_id := get_set (storage.likes s) tweet_id ∪ {[user_id]}]> s))
  ∧ (∀ out s', likes.like_tweet tweet_id (LikeRequest.mk user_id) s = (out, s') →
       match out with
       | Return _ => True
       | Raise e =>
           s' = s ∧
           ((e = HTTP_404_tweet tweet_id
             ∧ odict.get tweet_id (storage.tweets s) = None)
            ∨ (status_code e = 409
               ∧ user_id ∈ get_set (storage.likes s) tweet_id))
       | KeyError _ => False
       end).
Proof.
  split.
  - intros [t Ht] Hnot. rewrite (like_tweet_present _ _ _ _ Ht). simpl.
    rewrite decide_False by done.
    rewrite size_union by set_solver. by rewrite size_singleton, Nat.add_1_r.
  - intros out s' Hrun.
    destruct (odict.get tweet_id (storage.tweets s)) as [t|] eqn:Ht.
    + rewrite (like_tweet_present _ _ _ _ Ht) in Hrun. simpl in Hrun.
      case_decide; inversion Hrun; subst; [|done].
      split; [done|]. right. done.
    + rewrite (like_tweet_missing _ _ _ Ht) in Hrun. inversion Hrun; subst.
      split; [done|]. by left.
Qed.

(** A user id that was never registered likes a tweet of the sample store. *)
Lemma like_tweet_ignores_users_witness :
  likes.like_tweet "t1" (LikeRequest.mk "ghost") Examples.s4 =
  (Return ("Tweet liked", S (size (get_set (storage.likes Examples.s4) "t1"))),
   storage.set_likes
     <["t1" := get_set (storage.likes Examples.s4) "t1" ∪ {["ghost"]}]>
     Examples.s4).
Proof.
  apply (proj1 (like_tweet_ignores_users Examples.s4 "t1" "ghost")).
  - vm_compute. eauto.
  - apply (bool_decide_unpack _). vm_compute. exact I.
Defined.

(** ** Views *)

Section view_facts.
Implicit Types (s : storage.t) (tweet : tweet.t) (v : TweetOut.t).

Lemma build_original_tweet_id s tweet depth :
  TweetOut.original_tweet_id (tweets._build_tweet_out s tweet depth)
  = tweet.original_tweet_id tweet.
Proof. destruct depth; by simp _build_tweet_out. Qed.

Lemma build_nested s tweet depth :
  TweetOut.original_tweet (tweets._build_tweet_out s tweet (S depth)) = None.
Proof. by simp _build_tweet_out. Qed.

Lemma build_capped s tweet depth :
  nesting_capped (tweets._build_tweet_out s tweet depth).
Proof.
  unfold nesting_capped. destruct depth; simp _build_tweet_out; simpl; [|done].
  destruct (tweet.original_tweet_id tweet) as [orig_id|]; [|done].
  destruct (Py.truthy orig_id); [|done].
  destruct (odict.get orig_id (storage.tweets s)); [|done].
  apply build_nested.
Qed.

Lemma build_dangling s tweet depth :
  dangling_omitted s (tweets._build_tweet_out s tweet depth).
Proof.
  unfold dangling_omitted. rewrite build_original_tweet_id.
  destruct (tweet.original_tweet_id tweet) as [orig_id|] eqn:E; [|done].
  intros Hgone. destruct depth; simp _build_tweet_out; simpl; [|done].
  rewrite E, Hgone. by destruct (Py.truthy orig_id).
Qed.

(** Every read route builds its views with [_build_tweet_out] at depth 0,
    on the store it was called with. *)
Lemma returned_view_built s v :
  returned_view s v → ∃ tweet, v = tweets._build_tweet_out s tweet 0.
Proof.
  destruct 1 as [tweet_id v s' H|user_id l v s' H Hin|user_id l v s' H Hin
                |tag l v s' H Hin|user_id l v s' H Hin].
  - unfold tweets.get_tweet in H. unfold_M.
    destruct (odict.get tweet_id (storage.tweets s)) as [t|]; inversion H; eauto.
  - unfold users.get_user_tweets in H. unfold_M.
    destruct (storage.users s !! user_id); inversion H; subst.
    apply list_elem_of_fmap in Hin as (tw & -> & _). eauto.
  - unfold timeline.get_timeline in H. unfold_M.
    destruct (storage.users s !! user_id); simpl in H; inversion H; subst.
    apply list_elem_of_fmap in Hin as (tw & -> & _). eauto.
  - unfold hashtags.get_tweets_by_hashtag in H. unfold_M. inversion H; subst.
    apply list_elem_of_fmap in Hin as (tw & -> & _). eauto.
  - unfold mentions.get_mentions in H. unfold_M.
    destruct (storage.users s !! user_id); inversion H; subst.
    apply list_elem_of_fmap in Hin as (tw & -> & _). eauto.
Qed.

End view_facts.

(** C7. A tweet [r] of the store whose [original_tweet_id] names a tweet
    that the store no longer has is read without error: [get_tweet]
    returns its view, which still reports the id of the original and
    embeds no original; the same holds for the view of such a tweet in
    the outcome of every other read route. *)
Theorem dangling_original_not_embedded
  (s : storage.t) (r orig_id : string) (tweet : tweet.t) :
  odict.get r (storage.tweets s) = Some tweet →
  tweet.original_tweet_id tweet = Some orig_id →
  odict.get orig_id (storage.tweets s) = None →
  (∃ v, tweets.get_tweet r s = (Return v, s)
        ∧ TweetOut.original_tweet_id v = Some orig_id
        ∧ TweetOut.original_tweet v = None)
  ∧ (∀ v, returned_view s v →
          TweetOut.original_tweet_id v = Some orig_id →
          TweetOut.original_tweet v = None).
Proof.
  intros Hr Horig Hgone. split.
  - exists (tweets._build_tweet_out s tweet 0). split; [|split].
    + unfold tweets.get_tweet. unfold_M. by rewrite Hr.
    + by rewrite build_original_tweet_id.
    + pose proof (build_dangling s tweet 0) as H. unfold dangling_omitted in H.
      rewrite build_original_tweet_id, Horig in H. auto.
  - intros v [tw ->]%returned_view_built Hid.
    pose proof (build_dangling s tw 0) as H. unfold dangling_omitted in H.
    rewrite Hid in H. auto.
Qed.

(** After the tweet [t1] of the sample store is deleted, its retweet [t2]
    is still served, without an embedded original. *)
Lemma dangling_original_not_embedded_witness :
  let s := Examples.run "" "" (DELETE_tweets "t1") Examples.s6 in
  ∃ v, tweets.get_tweet "t2" s = (Return v, s)
       ∧ TweetOut.original_tweet_id v = Some "t1"
       ∧ TweetOut.original_tweet v = None.
Proof.
  intros s.
  refine (proj1 (dangling_original_not_embedded s "t2" "t1"
            (tweet.mk "t2" "retweet" "u2" None "2024-01-01T00:00:02" [] []
                      (Some "t1")) _ _ _)); by vm_compute.
Defined.

(** C8. Whatever the depth it is called with, [_build_tweet_out] embeds at
    most one level: the original embedded in a view has an empty
    [original_tweet]. The function is total, so a view is built for every
    stored chain of references, and every view that a read route returns
    is capped in this way. *)
Theorem nesting_capped_at_one_level (s : storage.t) :
  (∀ tweet depth, nesting_capped (tweets._build_tweet_out s tweet depth))
  ∧ (∀ v, returned_view s v → nesting_capped v).
Proof.
  split.
  - apply build_capped.
  - intros v [tw ->]%returned_view_built. apply build_capped.
Qed.

(** In the sample store [t3] quotes [t2], which retweets [t1]: the view
    of [t3] embeds the view of [t2], and that one embeds nothing. *)
Lemma nesting_capped_at_one_level_witness :
  let t3 := new_quote "t2" (QuoteTweetCreate.mk "u2" "so #x") "t3"
                      "2024-01-01T00:00:02" in
  let v := tweets._build_tweet_out Examples.s6 t3 0 in
  tweets.get_tweet "t3" Examples.s6 = (Return v, Examples.s6)
  ∧ (TweetOut.id <$> TweetOut.original_tweet v) = Some "t2"
  ∧ nesting_capped v.
Proof.
  intros t3 v.
  assert (tweets.get_tweet "t3" Examples.s6 = (Return v, Examples.s6)) as E
    by (vm_compute; reflexivity).
  split; [exact E|]. split; [vm_compute; reflexivity|].
  exact (proj2 (nesting_capped_at_one_level Examples.s6) v
           (returned_get_tweet _ _ _ _ E)).
Defined.

(** ** Creating tweets *)

Section create_facts.
Implicit Types (s : storage.t) (tid now tweet_id : string).

Lemma index_hashtags_nil tid index : tweets._index_hashtags tid [] index = index.
Proof. done. Qed.

Lemma create_tweet_run s body tid now :
  tweets.create_tweet body tid now s =
  match storage.users s !! TweetCreate.user_id body with
  | None => (Raise (HTTP_404_user (TweetCreate.user_id body)), s)
  | Some _ =>
      if (280 <? Py.len (TweetCreate.content body))%nat
      then (Raise HTTP_400_content, s)
      else
        let t := new_tweet body tid now in
        (Return (tweets._build_tweet_out (stored t s) t 0), stored t s)
  end.
Proof.
  unfold tweets.create_tweet. unfold_M.
  destruct (storage.users s !! TweetCreate.user_id body) as [u|] eqn:E; simpl.
  -       by destruct (280 <? Py.len (TweetCreate.content body))%nat.
  - done.
Qed.

Lemma create_quote_tweet_run s tweet_id body tid now :
  retweets.create_quote_tweet tweet_id body tid now s =
  match odict.get tweet_id (storage.tweets s) with
  | None => (Raise (HTTP_404_tweet tweet_id), s)
  | Some _ =>
      match storage.users s !! QuoteTweetCreate.user_id body with
      | None => (Raise (HTTP_404_user (QuoteTweetCreate.user_id body)), s)
      | Some _ =>
          if (280 <? Py.len (QuoteTweetCreate.content body))%nat
          then (Raise HTTP_400_content, s)
          else
            let t := new_quote tweet_id body tid now in
            (Return (tweets._build_tweet_out (stored t s) t 0), stored t s)
      end
  end.
Proof.
  unfold retweets.create_quote_tweet. unfold_M.
  destruct (odict.get tweet_id (storage.tweets s)) as [o|] eqn:Eo; simpl; [|done].
  destruct (storage.users s !! QuoteTweetCreate.user_id body) as [u|] eqn:E; simpl.
  -       by destruct (280 <? Py.len (QuoteTweetCreate.content body))%nat.
  - done.
Qed.

Lemma create_retweet_run s tweet_id body tid now :
  retweets.create_retweet tweet_id body tid now s =
  match odict.get tweet_id (storage.tweets s) with
  | None => (Raise (HTTP_404_tweet tweet_id), s)
  | Some _ =>
      match storage.users s !! RetweetCreate.user_id body with
      | None => (Raise (HTTP_404_user (RetweetCreate.user_id body)), s)
      | Some _ =>
          let t := new_retweet tweet_id body tid now in
          (Return (tweets._build_tweet_out (stored t s) t 0), stored t s)
      end
  end.
Proof.
  unfold retweets.create_retweet. unfold_M.
  destruct (odict.get tweet_id (storage.tweets s)) as [o|] eqn:Eo; simpl; [|done].
  destruct (storage.users s !! RetweetCreate.user_id body) as [u|] eqn:E; simpl.
  -       unfold stored. simpl. by destruct s.
  - done.
Qed.

Lemma odict_get_set_eq {V} (k : string) (v : V) (d : odict.t V) :
  odict.get k (odict.set k v d) = Some v.
Proof.
  induction d as [|[k' v'] d IH]; simpl.
  - by rewrite decide_True.
  - destruct (decide (k' = k)) as [->|Hne]; simpl.
    + by rewrite decide_True.
    + by rewrite decide_False.
Qed.


End create_facts.

(** C6. For an author the store knows, [create_tweet] accepts a body of
    exactly 280 characters, storing the tweet under the new id, and it
    rejects every body of 281 characters or more with the 400 error and
    the store untouched. [create_quote_tweet] does the same when the
    quoted tweet exists too. *)
Theorem body_length_boundary (s : storage.t) (user_id content tid now : string) :
  is_Some (storage.users s !! user_id) →
  let body := TweetCreate.mk user_id content in
  let qbody := QuoteTweetCreate.mk user_id content in
  (Py.len content = 280%nat →
     (∃ v s', tweets.create_tweet body tid now s = (Return v, s')
              ∧ odict.get tid (storage.tweets s') = Some (new_tweet body tid now))
     ∧ (∀ tweet_id, is_Some (odict.get tweet_id (storage.tweets s)) →
        ∃ v s', retweets.create_quote_tweet tweet_id qbody tid now s = (Return v, s')
                ∧ odict.get tid (storage.tweets s')
                  = Some (new_quote tweet_id qbody tid now)))
  ∧ ((281 ≤ Py.len content)%nat →
     tweets.create_tweet body tid now s = (Raise HTTP_400_content, s)
     ∧ (∀ tweet_id, is_Some (odict.get tweet_id (storage.tweets s)) →
        retweets.create_quote_tweet tweet_id qbody tid now s
        = (Raise HTTP_400_content, s))).
Proof.
  intros [u Hu] body qbody. split.
  - intros Hlen. split.
    + rewrite create_tweet_run. simpl. rewrite Hu, Hlen. simpl.
      do 2 eexists. split; [done|]. simpl. apply odict_get_set_eq.
    + intros tweet_id [o Ho]. rewrite create_quote_tweet_run. simpl.
      rewrite Ho, Hu, Hlen. simpl.
      do 2 eexists. split; [done|]. simpl. apply odict_get_set_eq.
  - intros Hlen. split.
    + rewrite create_tweet_run. simpl. rewrite Hu.
      by rewrite (proj2 (Nat.ltb_lt _ _)) by lia.
    + intros tweet_id [o Ho]. rewrite create_quote_tweet_run. simpl.
      rewrite Ho, Hu. by rewrite (proj2 (Nat.ltb_lt _ _)) by lia.
Qed.

(** The boundary on the sample store with the registered author [u2]:
    ["a" * 280] is stored, ["x" * 281] is refused. *)
Lemma body_length_boundary_witness :
  (∃ v s',
     tweets.create_tweet (TweetCreate.mk "u2" (times "a" 280)) "t9" "2024" Examples.s2
     = (Return v, s')
     ∧ odict.get "t9" (storage.tweets s')
       = Some (new_tweet (TweetCreate.mk "u2" (times "a" 280)) "t9" "2024"))
  ∧ tweets.create_tweet (TweetCreate.mk "u2" (times "x" 281)) "t9" "2024" Examples.s2
    = (Raise HTTP_400_content, Examples.s2).
Proof.
  assert (is_Some (storage.users Examples.s2 !! "u2")) as Hu by (vm_compute; eauto).
  pose proof (body_length_boundary Examples.s2 "u2" (times "a" 280) "t9" "2024" Hu)
    as [Haccept _].
  pose proof (body_length_boundary Examples.s2 "u2" (times "x" 281) "t9" "2024" Hu)
    as [_ Hreject].
  assert (Py.len (times "a" 280) = 280%nat) as H280 by (vm_compute; reflexivity).
  assert (281 ≤ Py.len (times "x" 281))%nat as H281 by (vm_compute; lia).
  split.
  - exact (proj1 (Haccept H280)).
  - exact (proj1 (Hreject H281)).
Defined.

(** ** What each handler does to the stores *)

Section run_facts.
Implicit Types (s : storage.t) (user_id target_id tweet_id : string).

Lemma create_user_run s body uid now :
  users.create_user body uid now s =
  match storage.usernames s !! Py.lower (UserCreate.username body) with
  | Some _ => (Raise (HTTP_409_username body), s)
  | None =>
      (Return (_build_user_out (registered body uid now s) (new_user body uid now)),
       registered body uid now s)
  end.
Proof.
  unfold users.create_user. unfold_M.
  by destruct (storage.usernames s !! Py.lower (UserCreate.username body)).
Qed.

Lemma update_user_run s user_id body :
  users.update_user user_id body s =
  match storage.users s !! user_id with
  | None => (Raise (HTTP_404_user user_id), s)
  | Some user =>
      let s' := storage.set_users <[user_id := updated body user]> s in
      (Return (_build_user_out s' (updated body user)), s')
  end.
Proof.
  unfold users.update_user. unfold_M.
  by destruct (storage.users s !! user_id).
Qed.

Lemma delete_tweet_run s tweet_id :
  tweets.delete_tweet tweet_id s =
  match odict.get tweet_id (storage.tweets s) with
  | None => (Raise (HTTP_404_tweet tweet_id), s)
  | Some t => (Return (), deleted tweet_id t s)
  end.
Proof.
  unfold tweets.delete_tweet. unfold_M.
  by destruct (odict.get tweet_id (storage.tweets s)).
Qed.

Lemma insert_setdefault {V} (k : string) (v d : V) (m : gmap string V) :
  <[k := v]> (setdefault k d m) = <[k := v]> m.
Proof.
  unfold setdefault. destruct (m !! k); [done|]. by rewrite insert_insert_eq.
Qed.

Lemma follow_user_run s user_id target_id :
  follows.follow_user user_id (FollowRequest.mk target_id) s =
  match storage.users s !! user_id, storage.users s !! target_id with
  | None, _ => (Raise (HTTP_404_user user_id), s)
  | Some _, None => (Raise (HTTP_404_user target_id), s)
  | Some _, Some _ =>
      if decide (user_id = target_id) then (Raise HTTP_400_self, s)
      else if decide (target_id ∈ get_set (storage.following s) user_id)
      then (Raise (HTTP_409_following target_id), defaulted user_id target_id s)
      else (Return ("Now following '" +:+ target_id +:+ "'"),
            followed user_id target_id s)
  end.
Proof.
  unfold follows.follow_user. unfold_M. simpl.
  destruct (storage.users s !! user_id) as [u|]; [|done].
  destruct (storage.users s !! target_id) as [u'|]; [|done].
  destruct (decide (user_id = target_id)) as [->|Hne].
  { by rewrite bool_decide_eq_true_2. }
  rewrite bool_decide_eq_false_2 by done. simpl.
  rewrite lookup_setdefault, decide_True by done.
  fold (get_set (storage.following s) user_id).
  destruct (decide (target_id ∈ get_set (storage.following s) user_id)) as [Hin|Hin].
  { by rewrite bool_decide_eq_true_2. }
  rewrite bool_decide_eq_false_2 by done.
  unfold followed, storage.set_followers, storage.set_following. cbn.
  rewrite lookup_setdefault, decide_True by done. cbn.
  rewrite lookup_setdefault, decide_True by done. cbn.
  fold (get_set (storage.followers s) target_id).
  fold (get_set (storage.following s) user_id).
  by rewrite !insert_setdefault.
Qed.

Lemma unfollow_user_run s user_id target_id :
  follows.unfollow_user user_id target_id s =
  match storage.users s !! user_id, storage.users s !! target_id with
  | None, _ => (Raise (HTTP_404_user user_id), s)
  | Some _, None => (Raise (HTTP_404_user target_id), s)
  | Some _, Some _ =>
      if decide (target_id ∈ get_set (storage.following s) user_id) then
        match storage.followers s !! target_id with
        | Some _ => (Return ("Unfollowed '" +:+ target_id +:+ "'"),
                     unfollowed user_id target_id s)
        | None => (KeyError target_id, half_unfollowed user_id target_id s)
        end
      else (Raise (HTTP_404_following target_id), s)
  end.
Proof.
  unfold follows.unfollow_user. unfold_M. simpl.
  destruct (storage.users s !! user_id) as [u|]; [|done].
  destruct (storage.users s !! target_id) as [u'|]; [|done].
  destruct (decide (target_id ∈ get_set (storage.following s) user_id)) as [Hin|Hin].
  2:{ by rewrite bool_decide_eq_false_2. }
  rewrite bool_decide_eq_true_2 by done. simpl.
  unfold get_set in Hin |- *.
  destruct (storage.following s !! user_id) as [out|] eqn:Eout; simpl in *.
  2:{ set_solver. }
  unfold unfollowed, half_unfollowed, get_set. rewrite Eout. simpl.
  by destruct (storage.followers s !! target_id).
Qed.

Lemma unlike_tweet_run s tweet_id user_id :
  likes.unlike_tweet tweet_id user_id s =
  match odict.get tweet_id (storage.tweets s) with
  | None => (Raise (HTTP_404_tweet tweet_id), s)
  | Some _ =>
      let likers := get_set (storage.likes s) tweet_id in
      if decide (user_id ∈ likers) then
        (Return ("Tweet unliked", size (likers ∖ {[user_id]})),
         storage.set_likes <[tweet_id := likers ∖ {[user_id]}]> s)
      else (Raise (HTTP_404_like tweet_id user_id), s)
  end.
Proof.
  unfold likes.unlike_tweet. unfold_M. simpl.
  destruct (odict.get tweet_id (storage.tweets s)); [|done]. simpl.
  destruct (decide (user_id ∈ get_set (storage.likes s) tweet_id)).
  - by rewrite bool_decide_eq_true_2.
  - by rewrite bool_decide_eq_false_2.
Qed.

End run_facts.

(** ** Every request is one step *)

Lemma fromkeys_acc_NoDup (seen l : list string) :
  NoDup seen → NoDup (Py.fromkeys_acc seen l).
Proof.
  revert seen. induction l as [|x l IH]; intros seen Hseen; simpl; [done|].
  case_decide; [by apply IH|].
  apply IH. apply NoDup_app. repeat split; [done| |apply NoDup_singleton].
  intros y Hy ->%list_elem_of_singleton. done.
Qed.

Lemma fromkeys_NoDup (l : list string) : NoDup (Py.fromkeys l).
Proof. apply fromkeys_acc_NoDup. constructor. Qed.

Lemma handle_effect (uuid now : string) (r : request) (s : storage.t) :
  effect uuid now s (handle uuid now r s).2.
Proof.
  destruct r as [raw|user_id raw|raw|tweet_id|tweet_id raw|tweet_id raw
                |user_id raw|user_id target_id|tweet_id raw|tweet_id user_id];
    unfold handle, validated, fmap, M_fmap, mbind, M_bind, mret, M_ret.
  - destruct (UserCreate.validate raw) as [body|] eqn:Ev; [|constructor].
    rewrite create_user_run.
    destruct (storage.usernames s !! _) eqn:Eu; simpl; [constructor|].
    by eapply effect_registered.
  - simpl. rewrite update_user_run.
    destruct (storage.users s !! user_id) eqn:Eu; simpl; [|constructor].
    by apply effect_updated.
  - destruct (TweetCreate.validate raw) as [body|] eqn:Ev; [|constructor].
    rewrite create_tweet_run.
    destruct (storage.users s !! _); [|constructor].
    destruct (280 <? _)%nat; simpl; [constructor|].
    apply effect_stored; [done|]. apply fromkeys_NoDup.
  - rewrite delete_tweet_run.
    destruct (odict.get tweet_id (storage.tweets s)) eqn:Et; simpl; [|constructor].
    by apply effect_deleted.
  - simpl. rewrite create_retweet_run.
    destruct (odict.get tweet_id (storage.tweets s)); [|constructor].
    destruct (storage.users s !! _); simpl; [|constructor].
    apply effect_stored; [done|]. constructor.
  - destruct (QuoteTweetCreate.validate raw) as [body|] eqn:Ev; [|constructor].
    rewrite create_quote_tweet_run.
    destruct (odict.get tweet_id (storage.tweets s)); [|constructor].
    destruct (storage.users s !! _); [|constructor].
    destruct (280 <? _)%nat; simpl; [constructor|].
    apply effect_stored; [done|]. apply fromkeys_NoDup.
  - simpl. destruct raw as [target_id]. rewrite follow_user_run.
    destruct (storage.users s !! user_id) eqn:E1; [|constructor].
    destruct (storage.users s !! target_id) eqn:E2; [|constructor].
    case_decide; [constructor|]. case_decide; simpl.
    + apply effect_defaulted; eauto.
    + apply effect_followed; eauto.
  - rewrite unfollow_user_run.
    destruct (storage.users s !! user_id) eqn:E1; [|constructor].
    destruct (storage.users s !! target_id) eqn:E2; [|constructor].
    case_decide; [|constructor].
    destruct (storage.followers s !! target_id) eqn:E3; simpl.
    + apply effect_unfollowed; eauto.
    + by apply effect_half_unfollowed.
  - simpl. destruct raw as [user_id].
    destruct (odict.get tweet_id (storage.tweets s)) as [t|] eqn:Et.
    + rewrite (like_tweet_present _ _ _ _ Et). simpl.
      case_decide; simpl; [constructor|]. apply effect_likes. eauto.
    + rewrite (like_tweet_missing _ _ _ Et). constructor.
  - rewrite unlike_tweet_run.
    destruct (odict.get tweet_id (storage.tweets s)) as [t|] eqn:Et; [|constructor].
    simpl. case_decide; simpl; [|constructor]. apply effect_likes. eauto.
Qed.

(** ** The follow graph *)

Lemma get_set_insert (m : gmap string (gset string)) (k k' : string) (v : gset string) :
  get_set (<[k := v]> m) k' = if decide (k = k') then v else get_set m k'.
Proof.
  unfold get_set. case_decide; subst.
  - by rewrite lookup_insert_eq.
  - by rewrite lookup_insert_ne.
Qed.

Lemma get_set_elem (m : gmap string (gset string)) (k x : string) :
  x ∈ get_set m k → is_Some (m !! k).
Proof. unfold get_set. destruct (m !! k); [eauto|set_solver]. Qed.

Lemma insert_keeps_key {V} (m : gmap string V) (k u : string) (v : V) :
  is_Some (m !! u) → is_Some (<[k := v]> m !! u).
Proof.
  intros H. rewrite lookup_insert_is_Some. destruct (decide (k = u)); eauto.
Qed.

Lemma follow_inv_frame (s s' : storage.t) :
  (∀ u, is_Some (storage.users s' !! u) ↔ is_Some (storage.users s !! u)) →
  storage.followers s' = storage.followers s →
  storage.following s' = storage.following s →
  follow_inv s → follow_inv s'.
Proof.
  intros Hu Hfr Hfg [Hsym Hsets Hedges]. split.
  - intros a b. rewrite Hfr, Hfg. apply Hsym.
  - intros u. rewrite Hu, Hfr, Hfg. apply Hsets.
  - intros a b. rewrite Hfg, !Hu. apply Hedges.
Qed.

Lemma defaulted_id (s : storage.t) (user_id target_id : string) :
  users_have_sets s →
  is_Some (storage.users s !! user_id) →
  is_Some (storage.users s !! target_id) →
  defaulted user_id target_id s = s.
Proof.
  intros Hsets Hu Ht. unfold defaulted, storage.set_followers, storage.set_following.
  destruct (Hsets _ Hu) as [_ Hfg]. destruct (Hsets _ Ht) as [Hfr _].
  destruct s; simpl in *. by rewrite !setdefault_present.
Qed.

Lemma registered_follow_inv (s : storage.t) (body : UserCreate.t) (uid now : string) :
  storage.users s !! uid = None →
  follow_inv s → follow_inv (registered body uid now s).
Proof.
  intros Hfresh [Hsym Hsets Hedges].
  assert (∀ x, x ∉ get_set (storage.following s) uid) as Hout.
  { intros x Hx. destruct (Hedges _ _ Hx) as [[u Hu] _]. congruence. }
  assert (∀ x, uid ∉ get_set (storage.following s) x) as Hin.
  { intros x Hx. destruct (Hedges _ _ Hx) as [_ [u Hu]]. congruence. }
  split.
  - intros a b. simpl. rewrite !get_set_insert.
    destruct (decide (uid = a)) as [<-|Ha], (decide (uid = b)) as [<-|Hb].
    + set_solver.
    + split; [set_solver|]. intros H%Hsym. by apply Hout in H.
    + split; [|set_solver]. intros H. by apply Hin in H.
    + apply Hsym.
  - intros u. simpl. destruct (decide (uid = u)) as [<-|Hne].
    + rewrite !lookup_insert_eq. eauto.
    + rewrite !lookup_insert_ne by done. apply Hsets.
  - intros a b. simpl. rewrite get_set_insert.
    destruct (decide (uid = a)) as [<-|Ha]; [set_solver|].
    intros [Hua Hub]%Hedges. split; by apply insert_keeps_key.
Qed.

Lemma followed_follow_inv (s : storage.t) (user_id target_id : string) :
  is_Some (storage.users s !! user_id) →
  is_Some (storage.users s !! target_id) →
  follow_inv s → follow_inv (followed user_id target_id s).
Proof.
  intros Hu Ht [Hsym Hsets Hedges]. split.
  - intros a b. simpl. rewrite !get_set_insert.
    specialize (Hsym a b).
    destruct (decide (user_id = a)) as [<-|Ha], (decide (target_id = b)) as [<-|Hb];
      set_solver.
  - intros u Hx. simpl in *.
    destruct (Hsets u Hx). split; by apply insert_keeps_key.
  - intros a b. simpl. rewrite get_set_insert.
    destruct (decide (user_id = a)) as [<-|Ha].
    + rewrite elem_of_union, elem_of_singleton.
      intros [H%Hedges| ->]; [done|eauto].
    + apply Hedges.
Qed.

Lemma unfollowed_follow_inv (s : storage.t) (user_id target_id : string) :
  follow_inv s → follow_inv (unfollowed user_id target_id s).
Proof.
  intros [Hsym Hsets Hedges]. split.
  - intros a b. simpl. rewrite !get_set_insert.
    specialize (Hsym a b).
    destruct (decide (user_id = a)) as [<-|Ha], (decide (target_id = b)) as [<-|Hb];
      set_solver.
  - intros u Hx. simpl in *.
    destruct (Hsets u Hx). split; by apply insert_keeps_key.
  - intros a b. simpl. rewrite get_set_insert.
    destruct (decide (user_id = a)) as [<-|Ha].
    + rewrite elem_of_difference. intros [H%Hedges _]. done.
    + apply Hedges.
Qed.

Lemma effect_follow_inv (uuid now : string) (s s' : storage.t) :
  storage.users s !! uuid = None →
  effect uuid now s s' → follow_inv s → follow_inv s'.
Proof.
  intros Hfresh Heff Hinv.
  destruct Heff as [|raw body Hv Hname|user_id body user Hu|t Hid Hnd|tweet_id t Ht
                   |user_id target_id Hu Ht Hin|user_id target_id Hu Ht Hne Hin
                   |user_id target_id Hin Hfr|user_id target_id Hin Hfr
                   |tweet_id likers Ht].
  - done.
  - by apply registered_follow_inv.
  - apply (follow_inv_frame s); [|done..]. intros u. simpl.
    rewrite lookup_insert_is_Some.
    split; [intros [<-|[_ H]]; eauto|].
    intros H. destruct (decide (user_id = u)); eauto.
  - by apply (follow_inv_frame s).
  - by apply (follow_inv_frame s).
  - rewrite defaulted_id; [done|apply Hinv|done..].
  - by apply followed_follow_inv.
  - by apply unfollowed_follow_inv.
  - destruct Hinv as [_ Hsets Hedges].
    destruct (Hedges _ _ Hin) as [_ Hx]. destruct (Hsets _ Hx) as [[? ?] _].
    congruence.
  - by apply (follow_inv_frame s).
Qed.

Lemma reset_follow_inv : follow_inv storage.reset_storage.
Proof.
  split.
  - intros a b. unfold get_set. simpl. rewrite !lookup_empty. set_solver.
  - intros u [x Hx]. simpl in Hx. by rewrite lookup_empty in Hx.
  - intros a b. unfold get_set. simpl. rewrite lookup_empty. set_solver.
Qed.

Lemma reachable_follow_inv (s : storage.t) : reachable s → follow_inv s.
Proof.
  induction 1 as [|s uuid now r Hreach IH [Hfresh _]].
  - apply reset_follow_inv.
  - eapply effect_follow_inv; [exact Hfresh|apply handle_effect|exact IH].
Qed.

(** C1. In every reachable state of the stores, whatever requests were
    served and however each was answered, [b] is in the following set of
    [a] exactly when [a] is in the follower set of [b]. *)
Theorem follow_graph_symmetry (s : storage.t) (a b : string) :
  reachable s →
  (b ∈ get_set (storage.following s) a ↔ a ∈ get_set (storage.followers s) b).
Proof. intros Hreach. by apply reachable_follow_inv. Qed.

(** The sample stores are reachable. *)
Lemma reachable_run (s : storage.t) (uuid now : string) (r : request) :
  reachable s →
  storage.users s !! uuid = None →
  odict.get uuid (storage.tweets s) = None →
  reachable (Examples.run uuid now r s).
Proof. intros Hs Hu Ht. by apply reachable_handle. Qed.

Lemma reachable_s6 : reachable Examples.s6.
Proof.
  repeat (apply reachable_run; [|by vm_compute..]). apply reachable_reset.
Qed.

Lemma reachable_s3 : reachable Examples.s3.
Proof.
  repeat (apply reachable_run; [|by vm_compute..]). apply reachable_reset.
Qed.

(** After [u1] followed [u2] in the sample store, both views hold the edge. *)
Lemma follow_graph_symmetry_witness :
  "u2" ∈ get_set (storage.following Examples.s3) "u1"
  ∧ "u1" ∈ get_set (storage.followers Examples.s3) "u2".
Proof.
  assert ("u2" ∈ get_set (storage.following Examples.s3) "u1") as H.
  { apply (bool_decide_unpack _). by vm_compute. }
  split; [exact H|].
  exact (proj1 (follow_graph_symmetry Examples.s3 "u1" "u2" reachable_s3) H).
Defined.

(** ** Rejected requests *)

Lemma handle_raise (uuid now : string) (r : request) (s s' : storage.t)
  (e : HTTPException) :
  users_have_sets s →
  handle uuid now r s = (Raise e, s') → s' = s.
Proof.
  intros Hsets.
  destruct r as [raw|user_id raw|raw|tweet_id|tweet_id raw|tweet_id raw
                |user_id raw|user_id target_id|tweet_id raw|tweet_id user_id];
    unfold handle, validated, fmap, M_fmap, mbind, M_bind, mret, M_ret, raise.
  - destruct (UserCreate.validate raw) as [body|]; [|by inversion 1].
    rewrite create_user_run.
    destruct (storage.usernames s !! _); by inversion 1.
  - simpl. rewrite update_user_run.
    destruct (storage.users s !! user_id); by inversion 1.
  - destruct (TweetCreate.validate raw) as [body|]; [|by inversion 1].
    rewrite create_tweet_run.
    destruct (storage.users s !! _); [|by inversion 1].
    destruct (280 <? _)%nat; by inversion 1.
  - rewrite delete_tweet_run.
    destruct (odict.get tweet_id (storage.tweets s)); by inversion 1.
  - simpl. rewrite create_retweet_run.
    destruct (odict.get tweet_id (storage.tweets s)); [|by inversion 1].
    destruct (storage.users s !! _); by inversion 1.
  - destruct (QuoteTweetCreate.validate raw) as [body|]; [|by inversion 1].
    rewrite create_quote_tweet_run.
    destruct (odict.get tweet_id (storage.tweets s)); [|by inversion 1].
    destruct (storage.users s !! _); [|by inversion 1].
    destruct (280 <? _)%nat; by inversion 1.
  - simpl. destruct raw as [target_id]. rewrite follow_user_run.
    destruct (storage.users s !! user_id) eqn:E1; [|by inversion 1].
    destruct (storage.users s !! target_id) eqn:E2; [|by inversion 1].
    case_decide; [by inversion 1|]. case_decide; [|by inversion 1].
    inversion 1; subst. apply defaulted_id; eauto.
  - rewrite unfollow_user_run.
    destruct (storage.users s !! user_id); [|by inversion 1].
    destruct (storage.users s !! target_id); [|by inversion 1].
    case_decide; [|by inversion 1].
    destruct (storage.followers s !! target_id); by inversion 1.
  - simpl. destruct raw as [user_id].
    destruct (odict.get tweet_id (storage.tweets s)) as [t|] eqn:Et.
    + rewrite (like_tweet_present _ _ _ _ Et). simpl.
      case_decide; by inversion 1.
    + rewrite (like_tweet_missing _ _ _ Et). by inversion 1.
  - rewrite unlike_tweet_run.
    destruct (odict.get tweet_id (storage.tweets s)); [|by inversion 1].
    simpl. case_decide; by inversion 1.
Qed.

(** C4. A request that is answered with an error leaves all seven stores
    exactly as they were: from a reachable state, whenever [handle]
    raises, for any route and any body, the state after the call is the
    state before it. *)
Theorem rejected_request_changes_nothing
  (uuid now : string) (r : request) (s s' : storage.t) (e : HTTPException) :
  reachable s →
  handle uuid now r s = (Raise e, s') →
  s' = s.
Proof.
  intros Hreach. apply handle_raise.
  apply follow_inv_sets, reachable_follow_inv, Hreach.
Qed.

(** A second follow of [u2] by [u1] is refused with 409 and changes nothing. *)
Lemma rejected_request_changes_nothing_witness :
  ∃ s', handle "" "" (POST_users_follow "u1" (FollowRequest.mk "u2")) Examples.s3
        = (Raise (HTTP_409_following "u2"), s')
        ∧ s' = Examples.s3.
Proof.
  set (r := POST_users_follow "u1" (FollowRequest.mk "u2")).
  assert (handle "" "" r Examples.s3
          = (Raise (HTTP_409_following "u2"), (handle "" "" r Examples.s3).2)) as E
    by (vm_compute; reflexivity).
  exists (handle "" "" r Examples.s3).2. split; [exact E|].
  exact (rejected_request_changes_nothing _ _ _ _ _ _ reachable_s3 E).
Defined.

(** ** Display names *)

(** [POST /users] only stores display names that its validator let pass,
    and those are not empty. *)
Lemma create_user_display_name (raw body : UserCreate.t) :
  UserCreate.validate raw = Some body → UserCreate.display_name body ≠ "".
Proof.
  unfold UserCreate.validate, UserCreate.username_nonempty,
    UserCreate.display_name_nonempty.
  destruct (Py.truthy (Py.strip (UserCreate.username raw))); simpl; [|done].
  destruct (Py.truthy (Py.strip (UserCreate.display_name raw))) eqn:E; simpl; [|done].
  intros [= <-]. simpl. by destruct (Py.strip (UserCreate.display_name raw)).
Qed.

(** C3. The invariant fails on the code. After [alice] registered with
    the display name [Alice], the request [PUT /users/u1] with the body
    [{"display_name": ""}] is answered with 200, and the reachable state
    it leaves stores the empty display name for her: [UserUpdate] has no
    validator where [UserCreate] has [display_name_nonempty]. *)
Theorem update_user_stores_empty_display_name :
  let r := PUT_users "u1" (UserUpdate.mk (Some "") None) in
  let s := Examples.run "" "" r Examples.s1 in
  reachable Examples.s1
  ∧ display_names_nonempty Examples.s1
  ∧ (∃ v, (handle "" "" r Examples.s1).1 = Return (JSON_user v)
          ∧ UserOut.display_name v = "")
  ∧ reachable s
  ∧ user.display_name <$> storage.users s !! "u1" = Some ""
  ∧ ¬ display_names_nonempty s.
Proof.
  intros r s.
  assert (reachable Examples.s1) as H1.
  { apply reachable_run; [apply reachable_reset|by vm_compute..]. }
  assert (user.display_name <$> storage.users s !! "u1" = Some "") as Hs
    by by vm_compute.
  split; [exact H1|]. split; [|split; [|split; [|split]]].
  - intros uid user Hu.
    change (storage.users Examples.s1)
      with (<["u1" := new_user (UserCreate.mk "alice" "Alice" None) "u1"
                               "2024-01-01T00:00:00"]> (∅ : gmap string user.t))
      in Hu.
    apply lookup_insert_Some in Hu as [[_ <-]|[_ Hu]]; [done|].
    by rewrite lookup_empty in Hu.
  - eexists. split; [by vm_compute|done].
  - apply reachable_run; [exact H1|by vm_compute..].
  - exact Hs.
  - intros Hall. destruct (storage.users s !! "u1") as [user|] eqn:Eu; [|done].
    apply (Hall _ _ Eu). simpl in Hs. by inversion Hs.
Qed.

(** ** Induction over the requests served *)

Lemma reachable_invariant (P : storage.t → Prop) :
  P storage.reset_storage →
  (∀ uuid now s s',
     reachable s → fresh s uuid → P s → effect uuid now s s' → P s') →
  ∀ s, reachable s → P s.
Proof.
  intros Hreset Hstep s. induction 1 as [|s uuid now r Hreach IH Hfresh].
  - exact Hreset.
  - eapply Hstep; [exact Hreach|exact Hfresh|exact IH|apply handle_effect].
Qed.

(** ** More on the follow graph *)

Lemma reachable_no_self_edges (s : storage.t) : reachable s → no_self_edges s.
Proof.
  revert s. apply reachable_invariant.
  - intros a. unfold get_set. simpl. rewrite lookup_empty. set_solver.
  - intros uuid now s s' _ _ IH Heff a.
    destruct Heff as [|raw body Hv Hname|user_id body user Hu|t Hid Hnd|tweet_id t Ht
                     |user_id target_id Hu Ht Hin|user_id target_id Hu Ht Hne Hin
                     |user_id target_id Hin Hfr|user_id target_id Hin Hfr
                     |tweet_id likers Ht]; simpl; try apply IH.
    + rewrite get_set_insert. case_decide; [set_solver|apply IH].
    + rewrite get_set_setdefault. apply IH.
    + rewrite get_set_insert. specialize (IH a). case_decide; set_solver.
    + rewrite get_set_insert. specialize (IH a). case_decide; set_solver.
    + rewrite get_set_insert. specialize (IH a). case_decide; set_solver.
Qed.

(** X1. A registered user who asks to follow themself is refused with
    400 and the stores stay as they are; and in every reachable state no
    following set contains its own user. *)
Theorem no_self_follow (s : storage.t) (a : string) :
  reachable s →
  (a ∉ get_set (storage.following s) a)
  ∧ (is_Some (storage.users s !! a) →
     follows.follow_user a (FollowRequest.mk a) s = (Raise HTTP_400_self, s)).
Proof.
  intros Hreach. split; [by apply reachable_no_self_edges|].
  intros [u Hu]. rewrite follow_user_run, Hu. by rewrite decide_True.
Qed.

Lemma no_self_follow_witness :
  ("u1" ∉ get_set (storage.following Examples.s3) "u1")
  ∧ follows.follow_user "u1" (FollowRequest.mk "u1") Examples.s3
    = (Raise HTTP_400_self, Examples.s3).
Proof.
  destruct (no_self_follow Examples.s3 "u1" reachable_s3) as [H1 H2].
  split; [exact H1|]. apply H2. vm_compute. eauto.
Defined.

Lemma insert_insert_id {V} (m : gmap string V) (k : string) (v w : V) :
  m !! k = Some v → <[k := v]> (<[k := w]> m) = m.
Proof. intros H. rewrite insert_insert_eq. by apply insert_id. Qed.

Lemma get_set_lookup (m : gmap string (gset string)) (k : string) :
  is_Some (m !! k) → m !! k = Some (get_set m k).
Proof. intros [v H]. unfold get_set. by rewrite H. Qed.

(** X2. Following and then unfollowing is a round trip. From a reachable
    state in which the registered user [a] does not follow the registered
    user [b], [follow_user] succeeds, [unfollow_user] on the state it
    leaves succeeds too, and the stores are then exactly as they were at
    the start. *)
Theorem follow_unfollow_round_trip (s : storage.t) (a b : string) :
  reachable s →
  is_Some (storage.users s !! a) →
  is_Some (storage.users s !! b) →
  a ≠ b →
  b ∉ get_set (storage.following s) a →
  ∃ s1,
    follows.follow_user a (FollowRequest.mk b) s
    = (Return ("Now following '" +:+ b +:+ "'"), s1)
    ∧ b ∈ get_set (storage.following s1) a
    ∧ a ∈ get_set (storage.followers s1) b
    ∧ follows.unfollow_user a b s1 = (Return ("Unfollowed '" +:+ b +:+ "'"), s).
Proof.
  intros Hreach [ua Hua] [ub Hub] Hne Hnot.
  destruct (reachable_follow_inv s Hreach) as [Hsym Hsets Hedges].
  destruct (Hsets a (mk_is_Some _ _ Hua)) as [_ Hfga].
  destruct (Hsets b (mk_is_Some _ _ Hub)) as [Hfrb _].
  assert (a ∉ get_set (storage.followers s) b) as Hnot'
    by (intros H; apply Hnot, Hsym, H).
  exists (followed a b s). split; [|split; [|split]].
  - rewrite follow_user_run, Hua, Hub.
    by rewrite decide_False, decide_False.
  - simpl. rewrite get_set_insert, decide_True by done. set_solver.
  - simpl. rewrite get_set_insert, decide_True by done. set_solver.
  - rewrite unfollow_user_run. simpl. rewrite Hua, Hub.
    rewrite (get_set_insert _ a a), (decide_True (P := a = a)) by done.
    rewrite decide_True by set_solver.
    rewrite lookup_insert_eq. f_equal.
    unfold unfollowed, half_unfollowed, followed, storage.set_followers,
      storage.set_following. simpl.
    rewrite !get_set_insert, !decide_True by done.
    replace ((get_set (storage.following s) a ∪ {[b]}) ∖ {[b]})
      with (get_set (storage.following s) a) by set_solver.
    replace ((get_set (storage.followers s) b ∪ {[a]}) ∖ {[a]})
      with (get_set (storage.followers s) b) by set_solver.
    rewrite !insert_insert_id by by apply get_set_lookup.
    by destruct s.
Qed.

Lemma follow_unfollow_round_trip_witness :
  ∃ s1,
    follows.follow_user "u2" (FollowRequest.mk "u1") Examples.s3
    = (Return "Now following 'u1'", s1)
    ∧ "u1" ∈ get_set (storage.following s1) "u2"
    ∧ "u2" ∈ get_set (storage.followers s1) "u1"
    ∧ follows.unfollow_user "u2" "u1" s1 = (Return "Unfollowed 'u1'", Examples.s3).
Proof.
  apply (follow_unfollow_round_trip Examples.s3 "u2" "u1" reachable_s3).
  - vm_compute. eauto.
  - vm_compute. eauto.
  - discriminate.
  - apply (bool_decide_unpack _). vm_compute. exact I.
Defined.

(** ** No unhandled exception *)

Lemma handle_no_key_error (uuid now : string) (r : request) (s : storage.t)
  (k : string) :
  follow_inv s → (handle uuid now r s).1 ≠ KeyError k.
Proof.
  intros [Hsym Hsets Hedges].
  destruct r as [raw|user_id raw|raw|tweet_id|tweet_id raw|tweet_id raw
                |user_id raw|user_id target_id|tweet_id raw|tweet_id user_id];
    unfold handle, validated, fmap, M_fmap, mbind, M_bind, mret, M_ret, raise.
  - destruct (UserCreate.validate raw) as [body|]; [|done].
    rewrite create_user_run. by destruct (storage.usernames s !! _).
  - simpl. rewrite update_user_run. by destruct (storage.users s !! user_id).
  - destruct (TweetCreate.validate raw) as [body|]; [|done].
    rewrite create_tweet_run.
    destruct (storage.users s !! _); [|done]. by destruct (280 <? _)%nat.
  - rewrite delete_tweet_run. by destruct (odict.get tweet_id (storage.tweets s)).
  - simpl. rewrite create_retweet_run.
    destruct (odict.get tweet_id (storage.tweets s)); [|done].
    by destruct (storage.users s !! _).
  - destruct (QuoteTweetCreate.validate raw) as [body|]; [|done].
    rewrite create_quote_tweet_run.
    destruct (odict.get tweet_id (storage.tweets s)); [|done].
    destruct (storage.users s !! _); [|done]. by destruct (280 <? _)%nat.
  - simpl. destruct raw as [target_id]. rewrite follow_user_run.
    destruct (storage.users s !! user_id); [|done].
    destruct (storage.users s !! target_id); [|done].
    case_decide; [done|]. by case_decide.
  - rewrite unfollow_user_run.
    destruct (storage.users s !! user_id); [|done].
    destruct (storage.users s !! target_id) eqn:Et; [|done].
    case_decide; [|done].
    destruct (Hsets target_id (mk_is_Some _ _ Et)) as [[x Hx] _].
    by rewrite Hx.
  - simpl. destruct raw as [user_id].
    destruct (odict.get tweet_id (storage.tweets s)) as [t|] eqn:Et.
    + rewrite (like_tweet_present _ _ _ _ Et). simpl. by case_decide.
    + by rewrite (like_tweet_missing _ _ _ Et).
  - rewrite unlike_tweet_run.
    destruct (odict.get tweet_id (storage.tweets s)); [|done].
    simpl. by case_decide.
Qed.

(** X3. No request makes a handler die of a [KeyError]: from a reachable
    state every request is answered, with a result or with an
    [HTTPException]. In particular the subscripts
    [storage.following[user_id]] and [storage.followers[target_user_id]]
    of [unfollow_user] always find their keys. *)
Theorem handlers_never_crash
  (uuid now : string) (r : request) (s : storage.t) :
  reachable s →
  match (handle uuid now r s).1 with
  | Return _ | Raise _ => True
  | KeyError _ => False
  end.
Proof.
  intros Hreach.
  pose proof (handle_no_key_error uuid now r s) as H.
  destruct (handle uuid now r s).1 as [a|e|k]; [done..|].
  exact (H k (reachable_follow_inv s Hreach) eq_refl).
Qed.

Lemma handlers_never_crash_witness :
  ∃ d, (handle "" "" (DELETE_users_follow "u1" "u2") Examples.s3).1
       = Return (JSON_detail d).
Proof.
  pose proof (handlers_never_crash "" "" (DELETE_users_follow "u1" "u2")
                Examples.s3 reachable_s3) as H.
  destruct (handle "" "" (DELETE_users_follow "u1" "u2") Examples.s3).1
    as [a|e|k] eqn:E; [|by vm_compute in E|destruct H].
  vm_compute in E. inversion E. eauto.
Defined.

(** ** Usernames *)

Lemma updated_id (body : UserUpdate.t) (user : user.t) :
  user.id (updated body user) = user.id user.
Proof.
  unfold updated.
  by destruct (UserUpdate.display_name body), (UserUpdate.bio body).
Qed.

Lemma updated_username (body : UserUpdate.t) (user : user.t) :
  user.username (updated body user) = user.username user.
Proof.
  unfold updated.
  by destruct (UserUpdate.display_name body), (UserUpdate.bio body).
Qed.

Lemma updated_created_at (body : UserUpdate.t) (user : user.t) :
  user.created_at (updated body user) = user.created_at user.
Proof.
  unfold updated.
  by destruct (UserUpdate.display_name body), (UserUpdate.bio body).
Qed.

Lemma reachable_users_indexed (s : storage.t) : reachable s → users_indexed s.
Proof.
  revert s. apply reachable_invariant.
  - intros uid user Hu. simpl in Hu. by rewrite lookup_empty in Hu.
  - intros uuid now s s' _ [Hfresh _] IH Heff uid user.
    destruct Heff as [|raw body Hv Hname|user_id body user0 Hu|t Hid Hnd|tweet_id t Ht
                     |user_id target_id Hu Ht Hin|user_id target_id Hu Ht Hne Hin
                     |user_id target_id Hin Hfr|user_id target_id Hin Hfr
                     |tweet_id likers Ht]; simpl; try apply IH.
    + intros [[<- <-]|[Hne Hu]]%lookup_insert_Some.
      * simpl. by rewrite lookup_insert_eq.
      * destruct (IH _ _ Hu) as [Hid Hidx]. split; [done|].
        rewrite lookup_insert_ne; [done|]. intros E. rewrite E in Hname. congruence.
    + intros [[<- <-]|[Hne Hu']]%lookup_insert_Some.
      * rewrite updated_id, updated_username. by apply IH.
      * by apply IH.
Qed.



(** X5. [update_user] is a partial update of one user. For a stored
    user it succeeds; the id, the username and the creation time stay,
    a field the body supplies is replaced and a field it omits is kept
    (so a bio, once set, can be changed but not removed); every other
    user and every other store is as before, and the returned view shows
    the new display name and bio. *)
Theorem update_user_partial
  (s : storage.t) (user_id : string) (body : UserUpdate.t) (user : user.t) :
  storage.users s !! user_id = Some user →
  ∃ user' v,
    users.update_user user_id body s
    = (Return v, storage.set_users <[user_id := user']> s)
    ∧ user.id user' = user.id user
    ∧ user.username user' = user.username user
    ∧ user.created_at user' = user.created_at user
    ∧ user.display_name user'
      = default (user.display_name user) (UserUpdate.display_name body)
    ∧ user.bio user'
      = match UserUpdate.bio body with Some b => Some b | None => user.bio user end
    ∧ UserOut.display_name v = user.display_name user'
    ∧ UserOut.bio v = user.bio user'.
Proof.
  intros Hu. exists (updated body user). eexists.
  rewrite update_user_run, Hu. simpl. split; [reflexivity|].
  rewrite updated_id, updated_username, updated_created_at.
  unfold updated.
  by destruct (UserUpdate.display_name body), (UserUpdate.bio body).
Qed.

Lemma update_user_partial_witness :
  ∃ user' v,
    users.update_user "u2" (UserUpdate.mk (Some "Robert") None) Examples.s2
    = (Return v, storage.set_users <["u2" := user']> Examples.s2)
    ∧ user.username user' = "Bob"
    ∧ user.display_name user' = "Robert"
    ∧ user.bio user' = Some "hi".
Proof.
  destruct (update_user_partial Examples.s2 "u2" (UserUpdate.mk (Some "Robert") None)
              (user.mk "u2" "Bob" "Bob" (Some "hi") "2024-01-01T00:00:01"))
    as (user' & v & Hrun & _ & Hname & _ & Hdisplay & Hbio & _).
  { vm_compute. reflexivity. }
  exists user', v. repeat split; assumption.
Defined.

(** ** Follower lists and counts *)

Lemma user_views_ids (s : storage.t) (ids : list string) :
  (∀ x, x ∈ ids → ∃ u, storage.users s !! x = Some u ∧ user.id u = x) →
  UserOut.id <$> omap (λ fid, _build_user_out s <$> (storage.users s !! fid)) ids
  = ids.
Proof.
  induction ids as [|x ids IH]; intros H; [done|]. simpl.
  destruct (H x) as (u & Hu & Hid); [by left|]. rewrite Hu. simpl.
  rewrite Hid. f_equal. apply IH. intros y Hy. apply H. by right.
Qed.

(** X6. The follower list is complete and agrees with the profile.
    In a reachable state [get_followers] for a registered user returns
    one view per member of the follower set, none being skipped, and
    [get_following] one per member of the following set; the lengths of
    the two lists are the [followers_count] and [following_count] that
    [get_user] reports. *)
Theorem follower_lists_match_counts (s : storage.t) (user_id : string) :
  reachable s →
  is_Some (storage.users s !! user_id) →
  ∃ l1 l2 v,
    follows.get_followers user_id s = (Return l1, s)
    ∧ follows.get_following user_id s = (Return l2, s)
    ∧ users.get_user user_id s = (Return v, s)
    ∧ UserOut.id <$> l1 ≡ₚ elements (get_set (storage.followers s) user_id)
    ∧ UserOut.id <$> l2 ≡ₚ elements (get_set (storage.following s) user_id)
    ∧ length l1 = UserOut.followers_count v
    ∧ length l2 = UserOut.following_count v.
Proof.
  intros Hreach [user Hu].
  destruct (reachable_follow_inv s Hreach) as [Hsym Hsets Hedges].
  pose proof (reachable_users_indexed s Hreach) as Hidx.
  destruct (Hidx _ _ Hu) as [Hid _].
  assert (∀ x, is_Some (storage.users s !! x) →
               ∃ u, storage.users s !! x = Some u ∧ user.id u = x) as Hkeyed.
  { intros x [u Hx]. exists u. split; [done|]. by apply Hidx. }
  assert (UserOut.id <$> follows.user_views s (get_set (storage.followers s) user_id)
          = elements (get_set (storage.followers s) user_id)) as E1.
  { apply user_views_ids. intros x Hx%elem_of_elements. apply Hkeyed.
    apply Hsym in Hx. by destruct (Hedges _ _ Hx). }
  assert (UserOut.id <$> follows.user_views s (get_set (storage.following s) user_id)
          = elements (get_set (storage.following s) user_id)) as E2.
  { apply user_views_ids. intros x Hx%elem_of_elements. apply Hkeyed.
    by destruct (Hedges _ _ Hx). }
  exists (follows.user_views s (get_set (storage.followers s) user_id)),
         (follows.user_views s (get_set (storage.following s) user_id)),
         (_build_user_out s user).
  split; [|split; [|split; [|split; [|split; [|split]]]]].
  - unfold follows.get_followers. unfold_M. by rewrite Hu.
  - unfold follows.get_following. unfold_M. by rewrite Hu.
  - unfold users.get_user. unfold_M. by rewrite Hu.
  - by rewrite E1.
  - by rewrite E2.
  - rewrite <- (length_fmap UserOut.id), E1. simpl. by rewrite Hid.
  - rewrite <- (length_fmap UserOut.id), E2. simpl. by rewrite Hid.
Qed.

Lemma follower_lists_match_counts_witness :
  ∃ l1 l2 v,
    follows.get_followers "u2" Examples.s3 = (Return l1, Examples.s3)
    ∧ follows.get_following "u2" Examples.s3 = (Return l2, Examples.s3)
    ∧ users.get_user "u2" Examples.s3 = (Return v, Examples.s3)
    ∧ UserOut.id <$> l1 ≡ₚ elements (get_set (storage.followers Examples.s3) "u2")
    ∧ UserOut.id <$> l2 ≡ₚ elements (get_set (storage.following Examples.s3) "u2")
    ∧ length l1 = UserOut.followers_count v
    ∧ length l2 = UserOut.following_count v.
Proof.
  apply (follower_lists_match_counts Examples.s3 "u2" reachable_s3).
  vm_compute. eauto.
Defined.

(** ** Likes again *)

(** X7. Liking and then unliking is a round trip on the like set. For a
    stored tweet that [user_id] does not like yet, [like_tweet] returns
    the count plus one, [unlike_tweet] on the state it leaves returns the
    old count, and the tweet then has the likers it started with; when
    the tweet had an entry in [storage.likes], the stores are exactly as
    at the start. *)
Theorem like_unlike_round_trip (s : storage.t) (tweet_id user_id : string) :
  is_Some (odict.get tweet_id (storage.tweets s)) →
  user_id ∉ get_set (storage.likes s) tweet_id →
  let n := size (get_set (storage.likes s) tweet_id) in
  ∃ s1 s2,
    likes.like_tweet tweet_id (LikeRequest.mk user_id) s
    = (Return ("Tweet liked", S n), s1)
    ∧ likes.unlike_tweet tweet_id user_id s1 = (Return ("Tweet unliked", n), s2)
    ∧ get_set (storage.likes s2) tweet_id = get_set (storage.likes s) tweet_id
    ∧ (is_Some (storage.likes s !! tweet_id) → s2 = s).
Proof.
  intros [t Ht] Hnot n.
  set (old := get_set (storage.likes s) tweet_id) in *.
  assert ((old ∪ {[user_id]}) ∖ {[user_id]} = old) as Hback by set_solver.
  exists (storage.set_likes <[tweet_id := old ∪ {[user_id]}]> s),
         (storage.set_likes <[tweet_id := old]> s).
  split; [|split; [|split]].
  - rewrite (like_tweet_present _ _ _ _ Ht). simpl. fold old.
    rewrite decide_False by done.
    rewrite size_union by set_solver. by rewrite size_singleton, Nat.add_1_r.
  - rewrite unlike_tweet_run. simpl. rewrite Ht.
    rewrite !get_set_insert, !(decide_True (P := tweet_id = tweet_id)) by done.
    rewrite decide_True by set_solver. rewrite Hback.
    unfold storage.set_likes. simpl. by rewrite insert_insert_eq.
  - simpl. by rewrite get_set_insert, decide_True.
  - intros Hkey. unfold storage.set_likes.
    rewrite insert_id by by apply get_set_lookup. by destruct s.
Qed.

Lemma like_unlike_round_trip_witness :
  ∃ s1 s2,
    likes.like_tweet "t1" (LikeRequest.mk "u1") Examples.s4
    = (Return ("Tweet liked", 1), s1)
    ∧ likes.unlike_tweet "t1" "u1" s1 = (Return ("Tweet unliked", 0), s2)
    ∧ s2 = Examples.s4.
Proof.
  destruct (like_unlike_round_trip Examples.s4 "t1" "u1")
    as (s1 & s2 & H1 & H2 & _ & H4).
  - vm_compute. eauto.
  - apply (bool_decide_unpack _). vm_compute. exact I.
  - exists s1, s2. split; [|split].
    + rewrite H1. f_equal.
    + rewrite H2. f_equal.
    + apply H4. vm_compute. eauto.
Defined.

(** ** Length guards behind the validators *)

(** X8. Behind the validator of [TweetCreate] the length guard of
    [create_tweet] never fires: a [POST /tweets] whose content is longer
    than 280 characters is answered with 422 before the handler runs,
    with the stores untouched, and no [POST /tweets] and no quote request
    is ever answered with the handler's own 400. *)
Theorem long_content_rejected_by_validator
  (uuid now tweet_id : string) (s : storage.t) (user_id content : string) :
  let r := POST_tweets (TweetCreate.mk user_id content) in
  let q := POST_tweets_quote tweet_id (QuoteTweetCreate.mk user_id content) in
  ((280 < Py.len content)%nat →
     handle uuid now r s = (Raise HTTP_422, s)
     ∧ handle uuid now q s = (Raise HTTP_422, s))
  ∧ (handle uuid now r s).1 ≠ Raise HTTP_400_content
  ∧ (handle uuid now q s).1 ≠ Raise HTTP_400_content.
Proof.
  intros r q. split; [|split].
  - intros Hlen. apply Nat.ltb_lt in Hlen.
    unfold r, q, handle, validated, TweetCreate.validate, QuoteTweetCreate.validate,
      TweetCreate.content_max_length, QuoteTweetCreate.content_max_length.
    simpl. by rewrite Hlen.
  - unfold r, handle, validated, TweetCreate.validate,
      TweetCreate.content_max_length. simpl.
    destruct (280 <? Py.len content)%nat eqn:Hlen; [done|].
    unfold fmap, M_fmap, mbind, M_bind, mret, M_ret.
    rewrite create_tweet_run. simpl.
    destruct (storage.users s !! user_id); [|done]. by rewrite Hlen.
  - unfold q, handle, validated, QuoteTweetCreate.validate,
      QuoteTweetCreate.content_max_length. simpl.
    destruct (280 <? Py.len content)%nat eqn:Hlen; [done|].
    unfold fmap, M_fmap, mbind, M_bind, mret, M_ret.
    rewrite create_quote_tweet_run. simpl.
    destruct (odict.get tweet_id (storage.tweets s)); [|done].
    destruct (storage.users s !! user_id); [|done]. by rewrite Hlen.
Qed.

Lemma long_content_rejected_by_validator_witness :
  handle "t9" "2024" (POST_tweets (TweetCreate.mk "u2" (times "x" 281))) Examples.s2
  = (Raise HTTP_422, Examples.s2).
Proof.
  assert (280 < Py.len (times "x" 281))%nat as Hlen by (vm_compute; lia).
  exact (proj1 (proj1 (long_content_rejected_by_validator
                         "t9" "2024" "t1" Examples.s2 "u2" (times "x" 281)) Hlen)).
Defined.

(** ** Extraction of hashtags and mentions *)




Lemma append_nonempty (w : string) (c : ascii) : w +:+ String c EmptyString ≠ "".
Proof. by destruct w. Qed.







(** ** Newest first *)



Lemma insert_newest_perm (x : tweet.t) (l : list tweet.t) :
  insert_newest x l ≡ₚ x :: l.
Proof.
  induction l as [|y l IH]; simpl; [done|].
  destruct (String.ltb _ _); [|done]. rewrite IH. apply perm_swap.
Qed.

Lemma sort_newest_first_perm (l : list tweet.t) : sort_newest_first l ≡ₚ l.
Proof.
  induction l as [|x l IH]; simpl; [done|].
  rewrite insert_newest_perm. by rewrite IH.
Qed.




Lemma build_id (s : storage.t) (t : tweet.t) (depth : nat) :
  TweetOut.id (tweets._build_tweet_out s t depth) = tweet.id t.
Proof. destruct depth; by simp _build_tweet_out. Qed.

Lemma build_user_id (s : storage.t) (t : tweet.t) (depth : nat) :
  TweetOut.user_id (tweets._build_tweet_out s t depth) = tweet.user_id t.
Proof. destruct depth; by simp _build_tweet_out. Qed.





(** ** What the timeline and the profile show *)

Lemma elem_of_sort_newest_first (l : list tweet.t) (t : tweet.t) :
  t ∈ sort_newest_first l ↔ t ∈ l.
Proof. by rewrite sort_newest_first_perm. Qed.

Lemma elem_of_List_filter {A} (p : A → bool) (l : list A) (x : A) :
  x ∈ List.filter p l ↔ x ∈ l ∧ p x = true.
Proof. rewrite !list_elem_of_In. apply filter_In. Qed.

Lemma timeline_feed_elem (s : storage.t) (user_id : string) (t : tweet.t) :
  t ∈ timeline.feed s user_id
  ↔ t ∈ odict.values (storage.tweets s)
    ∧ tweet.user_id t ∈ get_set (storage.following s) user_id.
Proof.
  unfold timeline.feed. case_decide as Hempty.
  - rewrite Hempty, elem_of_nil. set_solver.
  - rewrite elem_of_sort_newest_first, elem_of_List_filter.
    by rewrite bool_decide_eq_true.
Qed.

(** X11. The timeline of a registered user holds the views of exactly
    the stored tweets whose author the user follows; and in a reachable
    state none of them is a tweet of the user's own. *)
Theorem timeline_shows_followed_authors (s : storage.t) (user_id : string) :
  is_Some (storage.users s !! user_id) →
  ∃ l, timeline.get_timeline user_id s = (Return l, s)
       ∧ (∀ v, v ∈ l ↔
               ∃ t, t ∈ odict.values (storage.tweets s)
                    ∧ tweet.user_id t ∈ get_set (storage.following s) user_id
                    ∧ v = tweets._build_tweet_out s t 0)
       ∧ (reachable s → Forall (λ v, TweetOut.user_id v ≠ user_id) l).
Proof.
  intros [u Hu]. eexists. split; [|split].
  - unfold timeline.get_timeline. unfold_M. rewrite Hu. simpl. reflexivity.
  - intros v. rewrite list_elem_of_fmap. split.
    + intros (t & -> & [Ht Hf]%timeline_feed_elem). eauto.
    + intros (t & Ht & Hf & ->). exists t. split; [done|].
      by apply timeline_feed_elem.
  - intros Hreach. apply Forall_forall. intros v.
    rewrite list_elem_of_fmap. intros (t & -> & [_ Hf]%timeline_feed_elem).
    rewrite build_user_id. intros E. rewrite E in Hf.
    by apply (reachable_no_self_edges s Hreach) in Hf.
Qed.

Lemma timeline_shows_followed_authors_witness :
  ∃ l, timeline.get_timeline "u1" Examples.s6 = (Return l, Examples.s6)
       ∧ Forall (λ v, TweetOut.user_id v ≠ "u1") l.
Proof.
  destruct (timeline_shows_followed_authors Examples.s6 "u1") as (l & E & _ & H).
  - vm_compute. eauto.
  - exists l. split; [exact E|]. exact (H reachable_s6).
Defined.

(** X12. The profile counts what the tweet list shows. In a reachable
    state the list that [get_user_tweets] returns for a registered user
    has as many entries as the [tweet_count] of the view that [get_user]
    returns for that user, and every entry is a tweet of that user. *)
Theorem user_tweets_match_count (s : storage.t) (user_id : string) :
  reachable s →
  is_Some (storage.users s !! user_id) →
  ∃ l v,
    users.get_user_tweets user_id s = (Return l, s)
    ∧ users.get_user user_id s = (Return v, s)
    ∧ length l = UserOut.tweet_count v
    ∧ Forall (λ w, TweetOut.user_id w = user_id) l.
Proof.
  intros Hreach [u Hu].
  destruct (reachable_users_indexed s Hreach _ _ Hu) as [Hid _].
  do 2 eexists. split; [|split; [|split]].
  - unfold users.get_user_tweets. unfold_M. rewrite Hu. reflexivity.
  - unfold users.get_user. unfold_M. rewrite Hu. reflexivity.
  - rewrite length_fmap, sort_newest_first_perm. simpl. by rewrite Hid.
  - apply Forall_forall. intros w. rewrite list_elem_of_fmap.
    intros (t & -> & Ht). rewrite build_user_id.
    apply elem_of_sort_newest_first, elem_of_List_filter in Ht as [_ Ht].
    by apply bool_decide_eq_true in Ht.
Qed.

Lemma user_tweets_match_count_witness :
  ∃ l v,
    users.get_user_tweets "u2" Examples.s6 = (Return l, Examples.s6)
    ∧ users.get_user "u2" Examples.s6 = (Return v, Examples.s6)
    ∧ length l = UserOut.tweet_count v
    ∧ Forall (λ w, TweetOut.user_id w = "u2") l.
Proof.
  apply (user_tweets_match_count Examples.s6 "u2" reachable_s6).
  vm_compute. eauto.
Defined.

(** ** The tweet store as an ordered dictionary *)

Lemma odict_get_None {V} (k : string) (d : odict.t V) :
  odict.get k d = None ↔ k ∉ odict.keys d.
Proof.
  unfold odict.keys. induction d as [|[k' v] d IH]; simpl.
  - rewrite elem_of_nil. tauto.
  - rewrite not_elem_of_cons. case_decide; subst.
    + split; [done|]. by intros [? _].
    + rewrite IH. split; [by intros ?; split|by intros [_ ?]].
Qed.

Lemma odict_get_Some_elem {V} (k : string) (v : V) (d : odict.t V) :
  odict.get k d = Some v → (k, v) ∈ d.
Proof.
  induction d as [|[k' v'] d IH]; simpl; [done|].
  case_decide; subst.
  - intros [= ->]. by left.
  - intros Hg. right. by apply IH.
Qed.

Lemma odict_elem_get {V} (k : string) (v : V) (d : odict.t V) :
  NoDup (odict.keys d) → (k, v) ∈ d → odict.get k d = Some v.
Proof.
  unfold odict.keys. induction d as [|[k' v'] d IH]; simpl.
  - by intros _ ?%elem_of_nil.
  - intros [Hk' Hd]%NoDup_cons [[= -> ->]|Hin]%elem_of_cons.
    + by rewrite decide_True.
    + rewrite decide_False; [by apply IH|].
      intros ->. apply Hk'. apply list_elem_of_fmap. by exists (k, v).
Qed.

Lemma odict_set_fresh {V} (k : string) (v : V) (d : odict.t V) :
  odict.get k d = None → odict.set k v d = d ++ [(k, v)].
Proof.
  induction d as [|[k' v'] d IH]; simpl; [done|].
  case_decide; [done|]. intros Hg. by rewrite IH.
Qed.

Lemma odict_get_app {V} (k : string) (d1 d2 : odict.t V) :
  odict.get k (d1 ++ d2)
  = match odict.get k d1 with Some v => Some v | None => odict.get k d2 end.
Proof.
  induction d1 as [|[k' v'] d1 IH]; simpl; [done|]. by case_decide.
Qed.

Lemma odict_keys_del {V} (k : string) (d : odict.t V) :
  odict.keys (odict.del k d) = filter (λ x, x ≠ k) (odict.keys d).
Proof.
  unfold odict.keys. induction d as [|[k' v'] d IH]; [done|].
  cbn [odict.del]. rewrite fmap_cons, filter_cons. cbn [fst].
  destruct (decide (k' = k)) as [->|Hne].
  - by rewrite decide_False by (by intros ?).
  - rewrite decide_True by done. by rewrite fmap_cons, IH.
Qed.

Lemma odict_get_del {V} (k k' : string) (d : odict.t V) :
  odict.get k' (odict.del k d) = if decide (k = k') then None else odict.get k' d.
Proof.
  destruct (decide (k = k')) as [->|Hkk].
  - induction d as [|[k0 v0] d IH]; simpl; [done|].
    destruct (decide (k0 = k')); simpl; [done|]. by rewrite decide_False.
  - induction d as [|[k0 v0] d IH]; simpl; [done|].
    destruct (decide (k0 = k)) as [->|Hne]; simpl.
    + rewrite IH. by rewrite decide_False.
    + by rewrite IH.
Qed.

Lemma odict_elem_del {V} (k k' : string) (v : V) (d : odict.t V) :
  (k', v) ∈ odict.del k d ↔ k' ≠ k ∧ (k', v) ∈ d.
Proof.
  induction d as [|[k0 v0] d IH]; simpl.
  - rewrite elem_of_nil. tauto.
  - case_decide; subst; rewrite ?elem_of_cons, IH.
    + split; [tauto|]. intros [Hne [[= ? ?]|?]]; [done|tauto].
    + split; [|tauto]. intros [[= -> ->]|?]; tauto.
Qed.

(** ** The hashtag index under [_index_hashtags] and [_deindex_hashtags] *)

Lemma get_list_insert (m : gmap string (list string)) (k k' : string) (l : list string) :
  get_list (<[k := l]> m) k' = if decide (k = k') then l else get_list m k'.
Proof.
  unfold get_list. case_decide; subst.
  - by rewrite lookup_insert_eq.
  - by rewrite lookup_insert_ne.
Qed.

Lemma index_hashtags_lookup (tid : string) (tags : list string)
  (index : gmap string (list string)) (tag : string) :
  NoDup tags →
  tweets._index_hashtags tid tags index !! tag
  = if decide (tag ∈ tags) then Some (get_list index tag ++ [tid]) else index !! tag.
Proof.
  unfold tweets._index_hashtags. revert index.
  induction tags as [|tag0 tags IH]; intros index Hnd; simpl; [done|].
  - apply NoDup_cons in Hnd as [Hnot Hnd]. rewrite IH by done.
    unfold tweets.index_tag.
    destruct (decide (tag ∈ tags)) as [Hin|Hin].
    + rewrite (decide_True (P := tag ∈ tag0 :: tags)) by by right.
      rewrite get_list_insert, decide_False; [done|]. by intros ->.
    + destruct (decide (tag = tag0)) as [->|Hne].
      * rewrite (decide_True (P := tag0 ∈ tag0 :: tags)) by by left.
        by rewrite lookup_insert_eq.
      * rewrite (decide_False (P := tag ∈ tag0 :: tags))
          by (by intros [?|?]%elem_of_cons).
        by rewrite lookup_insert_ne.
Qed.

Lemma filter_all {A} (P : A → Prop) `{∀ x, Decision (P x)} (l : list A) :
  Forall P l → filter P l = l.
Proof.
  induction 1 as [|x l Hx Hl IH]; [done|].
  by rewrite filter_cons, decide_True, IH.
Qed.

Lemma list_remove_filter (x : string) (l : list string) :
  NoDup l → tweets.list_remove x l = filter (λ y, y ≠ x) l.
Proof.
  induction l as [|y l IH]; simpl; [done|].
  intros [Hy Hl]%NoDup_cons. rewrite filter_cons. case_decide; subst.
  - rewrite decide_False by (by intros ?).
    symmetry. apply filter_all, Forall_forall. by intros z Hz ->.
  - rewrite decide_True by done. by rewrite IH.
Qed.

Lemma deindex_tag_lookup (tid : string) (index : gmap string (list string))
  (tag0 tag : string) :
  (∀ t l, index !! t = Some l → NoDup l) →
  tweets.deindex_tag tid index tag0 !! tag
  = if decide (tag0 = tag) then filter (λ y, y ≠ tid) <$> index !! tag
    else index !! tag.
Proof.
  intros Hnd. unfold tweets.deindex_tag.
  destruct (index !! tag0) as [lst|] eqn:E.
  - case_decide as Hin.
    + case_decide; subst.
      * rewrite lookup_insert_eq, E. simpl. f_equal.
        apply list_remove_filter. by eapply Hnd.
      * by rewrite lookup_insert_ne.
    + case_decide; subst; [|done]. rewrite E. simpl. f_equal.
      symmetry. apply filter_all, Forall_forall. by intros z Hz ->.
  - case_decide; subst; [|done]. by rewrite E.
Qed.

Lemma deindex_hashtags_lookup (tid : string) (tags : list string)
  (index : gmap string (list string)) (tag : string) :
  (∀ t l, index !! t = Some l → NoDup l) →
  tweets._deindex_hashtags tid tags index !! tag
  = if decide (tag ∈ tags) then filter (λ y, y ≠ tid) <$> index !! tag
    else index !! tag.
Proof.
  unfold tweets._deindex_hashtags. revert index.
  induction tags as [|tag0 tags IH]; intros index Hnd; simpl; [done|].
  - rewrite IH.
    2:{ intros t l. rewrite deindex_tag_lookup by done.
        destruct (decide (tag0 = t)) as [->|Hne]; [|by apply Hnd].
        destruct (index !! t) as [l0|] eqn:E; [|done]. simpl.
        intros [= <-]. apply NoDup_filter. by eapply Hnd. }
    rewrite deindex_tag_lookup by done.
    destruct (decide (tag ∈ tags)) as [Hin|Hin].
    + rewrite (decide_True (P := tag ∈ tag0 :: tags)) by by right.
      destruct (decide (tag0 = tag)) as [->|Hne]; [|done].
      destruct (index !! tag) as [l0|]; [|done]. simpl. f_equal.
      rewrite list_filter_filter. apply list_filter_iff. tauto.
    + destruct (decide (tag0 = tag)) as [->|Hne].
      * by rewrite (decide_True (P := tag ∈ tag :: tags)) by by left.
      * by rewrite (decide_False (P := tag ∈ tag0 :: tags))
          by (by intros [?|?]%elem_of_cons).
Qed.

Lemma sublist_filter_mono {A} (P : A → Prop) `{∀ x, Decision (P x)} (l k : list A) :
  l `sublist_of` k → filter P l `sublist_of` filter P k.
Proof.
  induction 1 as [|x l k Hs IH|x l k Hs IH]; [done| |].
  - rewrite !filter_cons. case_decide; [by constructor|done].
  - rewrite filter_cons. case_decide; [by constructor|done].
Qed.

(** ** The tweet store and the hashtag index stay in step *)

Lemma tweet_inv_frame (s s' : storage.t) :
  storage.tweets s' = storage.tweets s →
  storage.hashtag_index s' = storage.hashtag_index s →
  tweet_inv s ∧ index_complete s → tweet_inv s' ∧ index_complete s'.
Proof.
  intros Et Ei [[Hkeyed Hord Hlive] Hcomp]. split; [split|].
  - unfold tweets_keyed. by rewrite Et.
  - unfold index_ordered. by rewrite Et, Ei.
  - unfold index_live. by rewrite Et, Ei.
  - unfold index_complete. by rewrite Et, Ei.
Qed.


Lemma get_list_NoDup_sublist (s : storage.t) (tag : string) :
  index_ordered s →
  NoDup (get_list (storage.hashtag_index s) tag)
  ∧ get_list (storage.hashtag_index s) tag `sublist_of` odict.keys (storage.tweets s).
Proof.
  intros Hord. unfold get_list.
  destruct (storage.hashtag_index s !! tag) as [l|] eqn:E; simpl.
  - by apply (Hord tag).
  - split; [constructor|apply sublist_nil_l].
Qed.

Lemma get_list_live (s : storage.t) (tag tid : string) :
  index_live s →
  tid ∈ get_list (storage.hashtag_index s) tag →
  ∃ t, odict.get tid (storage.tweets s) = Some t ∧ tag ∈ tweet.hashtags t.
Proof.
  intros Hlive. unfold get_list.
  destruct (storage.hashtag_index s !! tag) as [l|] eqn:E; simpl.
  - by apply Hlive.
  - by intros ?%elem_of_nil.
Qed.

Lemma stored_tweet_inv (s : storage.t) (t : tweet.t) :
  odict.get (tweet.id t) (storage.tweets s) = None →
  NoDup (tweet.hashtags t) →
  tweet_inv s ∧ index_complete s →
  tweet_inv (stored t s) ∧ index_complete (stored t s).
Proof.
  intros Hfresh Hnd [[[Hkeys Hids] Hord Hlive] Hcomp].
  assert (storage.tweets (stored t s) = storage.tweets s ++ [(tweet.id t, t)]) as Et.
  { simpl. by apply odict_set_fresh. }
  assert (∀ tag, storage.hashtag_index (stored t s) !! tag
                 = if decide (tag ∈ tweet.hashtags t)
                   then Some (get_list (storage.hashtag_index s) tag ++ [tweet.id t])
                   else storage.hashtag_index s !! tag) as Ei.
  { intros tag. simpl. by apply index_hashtags_lookup. }
  assert (∀ tag, tweet.id t ∉ get_list (storage.hashtag_index s) tag) as Hnew.
  { intros tag Hin. destruct (get_list_live s tag _ Hlive Hin) as (t' & Ht' & _).
    congruence. }
  assert (∀ k t', odict.get k (storage.tweets s) = Some t' →
                  odict.get k (storage.tweets (stored t s)) = Some t') as Hold.
  { intros k t' Hk. rewrite Et, odict_get_app. by rewrite Hk. }
  split; [split|].
  - unfold tweets_keyed, odict.keys. rewrite Et, fmap_app. simpl. split.
    + apply NoDup_app. split; [done|]. split; [|apply NoDup_singleton].
      intros k Hk ->%list_elem_of_singleton.
      by apply odict_get_None in Hfresh.
    + intros k t' [Hin|Hin%list_elem_of_singleton]%elem_of_app; [by apply Hids|].
      by inversion Hin.
  - intros tag l. rewrite Ei. unfold odict.keys. rewrite Et, fmap_app. simpl.
    destruct (get_list_NoDup_sublist s tag Hord) as [Hnd' Hsub].
    case_decide.
    + intros [= <-]. split.
      * apply NoDup_app. split; [done|]. split; [|apply NoDup_singleton].
        intros k Hk ->%list_elem_of_singleton. by apply (Hnew tag).
      * by apply sublist_app.
    + intros Hl. destruct (Hord _ _ Hl) as [? ?]. split; [done|].
      by apply sublist_inserts_r.
  - intros tag l tid. rewrite Ei. case_decide as Htag.
    + intros [= <-] [Hin|Hin%list_elem_of_singleton]%elem_of_app; [|subst tid].
      * destruct (get_list_live s tag _ Hlive Hin) as (t' & Ht' & Htag').
        exists t'. split; [by apply Hold|done].
      * exists t. split; [|done]. rewrite Et, odict_get_app, Hfresh. simpl.
        by rewrite decide_True.
    + intros Hl Hin. destruct (Hlive _ _ _ Hl Hin) as (t' & Ht' & Htag').
      exists t'. split; [by apply Hold|done].
  - intros k t' tag. rewrite Et, odict_get_app.
    unfold get_list at 1. rewrite Ei.
    destruct (odict.get k (storage.tweets s)) as [t0|] eqn:Ek.
    + intros [= ->] Htag. pose proof (Hcomp _ _ _ Ek Htag) as Hin.
      case_decide; simpl; [apply elem_of_app; by left|done].
    + simpl. case_decide as Hk; [|done]. intros [= <-] Htag.
      rewrite decide_True by done. simpl. apply elem_of_app. right.
      rewrite <- Hk. by apply list_elem_of_singleton.
Qed.

Lemma deleted_index_lookup (s : storage.t) (tweet_id : string) (t : tweet.t) (tag : string) :
  tweet_inv s →
  odict.get tweet_id (storage.tweets s) = Some t →
  storage.hashtag_index (deleted tweet_id t s) !! tag
  = filter (λ y, y ≠ tweet_id) <$> storage.hashtag_index s !! tag.
Proof.
  intros [_ Hord Hlive] Ht. simpl.
  rewrite deindex_hashtags_lookup by (intros t0 l Hl; by apply (Hord t0)).
  case_decide as Htag; [done|].
  destruct (storage.hashtag_index s !! tag) as [l|] eqn:E; [|done]. simpl. f_equal.
  symmetry. apply filter_all, Forall_forall. intros tid Hin ->.
  destruct (Hlive _ _ _ E Hin) as (t' & Ht' & Htag'). congruence.
Qed.

Lemma deleted_tweet_inv (s : storage.t) (tweet_id : string) (t : tweet.t) :
  odict.get tweet_id (storage.tweets s) = Some t →
  tweet_inv s ∧ index_complete s →
  tweet_inv (deleted tweet_id t s) ∧ index_complete (deleted tweet_id t s).
Proof.
  intros Ht [Hinv Hcomp].
  pose proof (deleted_index_lookup s tweet_id t) as Ei.
  destruct Hinv as [[Hkeys Hids] Hord Hlive].
  assert (tweet_inv s) as Hinv by (by split).
  split; [split|].
  - split.
    + simpl. rewrite odict_keys_del. by apply NoDup_filter.
    + intros k t'. simpl. intros [_ Hin]%odict_elem_del. by apply Hids.
  - intros tag l. rewrite Ei by done.
    destruct (storage.hashtag_index s !! tag) as [l0|] eqn:E; [|done]. simpl.
    intros [= <-]. destruct (Hord _ _ E) as [Hnd Hsub]. split.
    + by apply NoDup_filter.
    + simpl. rewrite odict_keys_del. by apply sublist_filter_mono.
  - intros tag l tid. rewrite Ei by done.
    destruct (storage.hashtag_index s !! tag) as [l0|] eqn:E; [|done]. simpl.
    intros [= <-] [Hne Hin]%list_elem_of_filter.
    destruct (Hlive _ _ _ E Hin) as (t' & Ht' & Htag').
    exists t'. split; [|done]. simpl. rewrite odict_get_del.
    by rewrite decide_False.
  - intros k t' tag. simpl storage.tweets. rewrite odict_get_del.
    case_decide as Hk; [done|]. intros Hk' Htag.
    pose proof (Hcomp _ _ _ Hk' Htag) as Hin.
    unfold get_list in *. rewrite Ei by done.
    destruct (storage.hashtag_index s !! tag) as [l0|]; simpl in *; [|done].
    apply list_elem_of_filter. split; [|done]. by intros ->.
Qed.

Lemma reachable_tweet_inv (s : storage.t) :
  reachable s → tweet_inv s ∧ index_complete s.
Proof.
  revert s. apply reachable_invariant.
  - split; [split|].
    + split; [constructor|]. by intros k t ?%elem_of_nil.
    + intros tag l Hl. simpl in Hl. by rewrite lookup_empty in Hl.
    + intros tag l tid Hl. simpl in Hl. by rewrite lookup_empty in Hl.
    + by intros k t tag.
  - intros uuid now s s' _ [_ Hfresh] IH Heff.
    destruct Heff as [|raw body Hv Hname|user_id body user Hu|t Hid Hnd|tweet_id t Ht
                     |user_id target_id Hu Ht Hin|user_id target_id Hu Ht Hne Hin
                     |user_id target_id Hin Hfr|user_id target_id Hin Hfr
                     |tweet_id likers Ht];
      try (by apply (tweet_inv_frame s)).
    + apply stored_tweet_inv; [by rewrite Hid|done..].
    + by apply deleted_tweet_inv.
Qed.

(** ** Reading through the hashtag index *)

Lemma omap_ext_elem {A B} (f g : A → option B) (l : list A) :
  (∀ x, x ∈ l → f x = g x) → omap f l = omap g l.
Proof.
  induction l as [|x l IH]; intros H; [done|].
  cbn [omap list_omap].
  rewrite (H x) by by left. by rewrite IH by (intros y Hy; apply H; by right).
Qed.

Lemma filter_ext_elem {A} (P Q : A → Prop) `{∀ x, Decision (P x)}
  `{∀ x, Decision (Q x)} (l : list A) :
  (∀ x, x ∈ l → P x ↔ Q x) → filter P l = filter Q l.
Proof.
  induction l as [|x l IH]; intros Hext; [done|].
  rewrite !filter_cons.
  rewrite IH by (intros y Hy; apply Hext; by right).
  destruct (decide (P x)) as [HP|HP], (decide (Q x)) as [HQ|HQ]; try done.
  - exfalso. apply HQ. apply Hext; [by left|done].
  - exfalso. apply HP. apply Hext; [by left|done].
Qed.

Lemma odict_get_cons_ne {V} (k k0 : string) (v0 : V) (d : odict.t V) :
  k ≠ k0 → odict.get k ((k0, v0) :: d) = odict.get k d.
Proof. intros Hne. simpl. by rewrite decide_False. Qed.

Lemma live_sublist {V} (d : list (string * V)) (ks : list string) :
  NoDup (odict.keys d) →
  ks `sublist_of` odict.keys d →
  omap (λ k, odict.get k d) ks = (filter (λ kv, kv.1 ∈ ks) d).*2.
Proof.
  unfold odict.keys. revert ks.
  induction d as [|[k0 v0] d IH]; intros ks Hnd Hsub.
  - apply sublist_nil_r in Hsub as ->. done.
  - rewrite fmap_cons in Hnd, Hsub. cbn [fst] in Hnd, Hsub.
    apply NoDup_cons in Hnd as [Hk0 Hnd].
    apply sublist_cons_r in Hsub as [Hsub|(ks' & -> & Hsub)].
    + assert (k0 ∉ ks) as Hnot.
      { intros Hin. apply Hk0. by eapply sublist_subseteq. }
      rewrite filter_cons. cbn [fst]. rewrite decide_False by done.
      rewrite <- IH by done.
      apply omap_ext_elem. intros k Hk. apply odict_get_cons_ne. by intros ->.
    + assert (k0 ∉ ks') as Hnot.
      { intros Hin. apply Hk0. by eapply sublist_subseteq. }
      rewrite filter_cons. cbn [fst].
      rewrite (decide_True (P := k0 ∈ k0 :: ks')) by (by left).
      cbn [omap list_omap odict.get]. rewrite decide_True by done.
      rewrite fmap_cons. cbn [snd]. f_equal.
      rewrite (filter_ext_elem _ (λ kv, kv.1 ∈ ks')).
      * rewrite <- IH by done.
        apply omap_ext_elem. intros k Hk. rewrite decide_False; [done|]. by intros ->.
      * intros [k v] Hkv. simpl. rewrite elem_of_cons. split; [|tauto].
        intros [->|?]; [|done]. exfalso. apply Hk0.
        apply list_elem_of_fmap. by exists (k0, v).
Qed.

Lemma filter_values {V} (P : string * V → Prop) `{∀ x, Decision (P x)}
  (q : V → bool) (d : list (string * V)) :
  (∀ kv, kv ∈ d → P kv ↔ q kv.2 = true) →
  (filter P d).*2 = List.filter q (odict.values d).
Proof.
  unfold odict.values. induction d as [|kv d IH]; intros Hext; [done|].
  rewrite filter_cons, fmap_cons. simpl.
  rewrite <- IH by (intros y Hy; apply Hext; by right).
  destruct (decide (P kv)) as [HP|HP].
  - apply Hext in HP; [|by left]. by rewrite HP.
  - destruct (q kv.2) eqn:Hq; [|done].
    exfalso. apply HP. apply Hext; [by left|done].
Qed.

Lemma live_is_scan (s : storage.t) (tag : string) :
  reachable s →
  hashtags.live s (get_list (storage.hashtag_index s) tag)
  = List.filter (λ t, bool_decide (tag ∈ tweet.hashtags t))
                (odict.values (storage.tweets s)).
Proof.
  intros Hreach.
  destruct (reachable_tweet_inv s Hreach) as [[[Hkeys Hids] Hord Hlive] Hcomp].
  destruct (get_list_NoDup_sublist s tag Hord) as [Hnd Hsub].
  unfold hashtags.live. rewrite live_sublist by done.
  apply filter_values. intros [k t] Hkt. simpl.
  rewrite bool_decide_eq_true.
  pose proof (odict_elem_get _ _ _ Hkeys Hkt) as Hget. split.
  - intros Hin. destruct (get_list_live s tag k Hlive Hin) as (t' & Ht' & Htag).
    congruence.
  - intros Htag. by eapply Hcomp.
Qed.

(** X13. The hashtag index is a faithful cache. In a reachable state
    [get_tweets_by_hashtag] returns, for any spelling of the tag, what a
    scan of the whole tweet store for the lowercased tag returns: the
    views of the stored tweets that carry it, newest first, in the same
    order. *)
Theorem hashtag_feed_is_scan (s : storage.t) (tag : string) :
  reachable s →
  hashtags.get_tweets_by_hashtag tag s
  = (Return ((λ t, tweets._build_tweet_out s t 0)
               <$> sort_newest_first
                     (List.filter (λ t, bool_decide (Py.lower tag ∈ tweet.hashtags t))
                                  (odict.values (storage.tweets s)))),
     s).
Proof.
  intros Hreach. unfold hashtags.get_tweets_by_hashtag, hashtags.tagged. unfold_M.
  by rewrite live_is_scan.
Qed.

Lemma hashtag_feed_is_scan_witness :
  ∃ l, hashtags.get_tweets_by_hashtag "X" Examples.s6 = (Return l, Examples.s6)
       ∧ TweetOut.id <$> l = ["t1"; "t3"].
Proof.
  eexists. split.
  - exact (hashtag_feed_is_scan Examples.s6 "X" reachable_s6).
  - vm_compute. reflexivity.
Defined.

(** ** Trending *)













(** ** Retweet and quote counts *)

Lemma count_if_snoc {A} (p : A → bool) (l : list A) (x : A) :
  count_if p (l ++ [x]) = (count_if p l + if p x then 1 else 0)%nat.
Proof.
  unfold count_if. rewrite List.filter_app, length_app. simpl.
  by destruct (p x).
Qed.

Lemma stored_values (s : storage.t) (t : tweet.t) :
  odict.get (tweet.id t) (storage.tweets s) = None →
  odict.values (storage.tweets (stored t s))
  = odict.values (storage.tweets s) ++ [t].
Proof.
  intros Hfresh. simpl. rewrite odict_set_fresh by done.
  unfold odict.values. by rewrite fmap_app.
Qed.

Lemma stored_get_old (s : storage.t) (t : tweet.t) (k : string) (t0 : tweet.t) :
  odict.get (tweet.id t) (storage.tweets s) = None →
  odict.get k (storage.tweets s) = Some t0 →
  odict.get k (storage.tweets (stored t s)) = Some t0.
Proof.
  intros Hfresh Hk. simpl. rewrite odict_set_fresh by done.
  by rewrite odict_get_app, Hk.
Qed.

Lemma build_embeds (s : storage.t) (t orig : tweet.t) (orig_id : string) :
  tweet.original_tweet_id t = Some orig_id →
  Py.truthy orig_id = true →
  odict.get orig_id (storage.tweets s) = Some orig →
  TweetOut.original_tweet (tweets._build_tweet_out s t 0)
  = Some (tweets._build_tweet_out s orig 1).
Proof. intros Ho Htruthy Hget. simp _build_tweet_out. simpl. by rewrite Ho, Htruthy, Hget. Qed.

Lemma build_counts (s : storage.t) (t : tweet.t) (depth : nat) :
  TweetOut.retweet_count (tweets._build_tweet_out s t depth)
  = tweets._count_retweets s (tweet.id t)
  ∧ TweetOut.quote_count (tweets._build_tweet_out s t depth)
    = tweets._count_quotes s (tweet.id t)
  ∧ TweetOut.like_count (tweets._build_tweet_out s t depth)
    = size (get_set (storage.likes s) (tweet.id t)).
Proof. destruct depth; by simp _build_tweet_out. Qed.

(** X15. Retweets and quotes are counted on the original. In a reachable
    state, for a stored tweet with a non-empty id, a registered user and
    a fresh id, [create_retweet] succeeds, stores a tweet without
    content and leaves the hashtag index alone; it raises the retweet
    count of the original by one and keeps its quote count, and the view
    it returns embeds the original with the new count.
    [create_quote_tweet] with a content of at most 280 characters raises
    the quote count by one and keeps the retweet count. *)
Theorem references_are_counted
  (s : storage.t) (tweet_id user_id content tid now : string) :
  reachable s →
  is_Some (odict.get tweet_id (storage.tweets s)) →
  Py.truthy tweet_id = true →
  is_Some (storage.users s !! user_id) →
  odict.get tid (storage.tweets s) = None →
  (∃ v s',
     retweets.create_retweet tweet_id (RetweetCreate.mk user_id) tid now s
     = (Return v, s')
     ∧ tweets._count_retweets s' tweet_id = S (tweets._count_retweets s tweet_id)
     ∧ tweets._count_quotes s' tweet_id = tweets._count_quotes s tweet_id
     ∧ storage.hashtag_index s' = storage.hashtag_index s
     ∧ TweetOut.content v = None
     ∧ TweetOut.retweet_count <$> TweetOut.original_tweet v
       = Some (S (tweets._count_retweets s tweet_id)))
  ∧ ((Py.len content ≤ 280)%nat →
     ∃ v s',
       retweets.create_quote_tweet tweet_id (QuoteTweetCreate.mk user_id content)
                                   tid now s
       = (Return v, s')
       ∧ tweets._count_quotes s' tweet_id = S (tweets._count_quotes s tweet_id)
       ∧ tweets._count_retweets s' tweet_id = tweets._count_retweets s tweet_id
       ∧ TweetOut.quote_count <$> TweetOut.original_tweet v
         = Some (S (tweets._count_quotes s tweet_id))).
Proof.
  intros Hreach [orig Horig] Htruthy [u Hu] Hfresh.
  destruct (reachable_tweet_inv s Hreach) as [[[_ Hids] _ _] _].
  pose proof (Hids _ _ (odict_get_Some_elem _ _ _ Horig)) as Hid.
  split.
  - set (t := new_retweet tweet_id (RetweetCreate.mk user_id) tid now).
    assert (tweets._count_retweets (stored t s) tweet_id
            = S (tweets._count_retweets s tweet_id)) as Hrt.
    { unfold tweets._count_retweets. rewrite stored_values by done.
      rewrite count_if_snoc. simpl.
      rewrite !bool_decide_eq_true_2 by done. simpl. lia. }
    exists (tweets._build_tweet_out (stored t s) t 0), (stored t s).
    split; [|split; [done|split; [|split; [done|split]]]].
    + rewrite create_retweet_run, Horig. simpl. by rewrite Hu.
    + unfold tweets._count_quotes. rewrite stored_values by done.
      rewrite count_if_snoc. simpl. lia.
    + by simp _build_tweet_out.
    + rewrite (build_embeds _ _ orig tweet_id); [|done..|by apply stored_get_old].
      simpl. destruct (build_counts (stored t s) orig 1) as [-> _].
      by rewrite Hid, Hrt.
  - intros Hlen.
    set (t := new_quote tweet_id (QuoteTweetCreate.mk user_id content) tid now).
    assert (tweets._count_quotes (stored t s) tweet_id
            = S (tweets._count_quotes s tweet_id)) as Hq.
    { unfold tweets._count_quotes. rewrite stored_values by done.
      rewrite count_if_snoc. simpl.
      rewrite !bool_decide_eq_true_2 by done. simpl. lia. }
    exists (tweets._build_tweet_out (stored t s) t 0), (stored t s).
    split; [|split; [done|split]].
    + rewrite create_quote_tweet_run, Horig. simpl. rewrite Hu.
      by rewrite (proj2 (Nat.ltb_ge _ _)) by done.
    + unfold tweets._count_retweets. rewrite stored_values by done.
      rewrite count_if_snoc. simpl. lia.
    + rewrite (build_embeds _ _ orig tweet_id); [|done..|by apply stored_get_old].
      simpl. destruct (build_counts (stored t s) orig 1) as (_ & -> & _).
      by rewrite Hid, Hq.
Qed.

Lemma references_are_counted_witness :
  ∃ v s',
    retweets.create_retweet "t1" (RetweetCreate.mk "u1") "t9" "2024" Examples.s6
    = (Return v, s')
    ∧ tweets._count_retweets Examples.s6 "t1" = 1%nat
    ∧ tweets._count_retweets s' "t1" = 2%nat
    ∧ TweetOut.retweet_count <$> TweetOut.original_tweet v = Some 2%nat.
Proof.
  destruct (references_are_counted Examples.s6 "t1" "u1" "" "t9" "2024" reachable_s6)
    as [(v & s' & Hrun & Hrt & _ & _ & _ & Hview) _].
  - vm_compute. eauto.
  - reflexivity.
  - vm_compute. eauto.
  - vm_compute. reflexivity.
  - assert (tweets._count_retweets Examples.s6 "t1" = 1%nat) as H1
      by (vm_compute; reflexivity).
    exists v, s'. rewrite H1 in Hrt, Hview. by repeat split.
Defined.

(** ** Mentions *)



(** ** The validators of [UserCreate] *)






(** ** Creating and deleting a tweet *)


Lemma odict_del_fresh {V} (k : string) (d : odict.t V) :
  odict.get k d = None → odict.del k d = d.
Proof.
  induction d as [|[k' v'] d IH]; simpl; [done|].
  destruct (decide (k' = k)); [done|]. intros Hg. by rewrite IH.
Qed.




(** ** Registration *)






